(** * Sign work orders: location inference and note construction

    A shallow embedding of [new_work_orders_to_knack.py]: the nearest-feature
    matcher, the block-range calculator, the location synthesizer, the
    engineer note, and the work-order loop of [main].

    Python objects are modelled as follows.
    - Attribute values are the JSON scalars of the feature service: null,
      integers and strings.
    - A dict of attributes is a [gmap string value]; a [Counter], whose
      iteration order matters, is an association list in insertion order.
    - A Python [float] is an IEEE 754 binary64 value, [spec_float] of the
      standard library with [prec = 53] and [emax = 1024].
    - An exception is a value of [exn]; fallible code returns a [result].
    - Methods of [WorkOrder] mutate [self] and may log or query a layer:
      they are computations in a state-and-error monad over the work order
      and the trace of events. *)

From Stdlib Require Import ZArith String Ascii List Lia DecimalString SpecFloat.
From stdpp Require Import base gmap strings list.

Local Open Scope Z_scope.

(** ** Values and exceptions *)

Inductive value :=
| VNone
| VInt (z : Z)
| VStr (s : string).

#[global] Instance value_eq_dec : EqDecision value.
Proof. solve_decision. Defined.

Inductive exn :=
| KeyError (key : string)          (* d[k] with k missing *)
| AttributeError (attr : string)   (* attribute access on None or before it is set *)
| IndexError                       (* l[0] on an empty list *)
| TypeError                        (* operator applied to unsupported operands *)
| ZeroDivisionError
| OverflowError
| ValueError (msg : string).       (* raised by the program or by a builtin *)

Inductive result (A : Type) :=
| Ok (a : A)
| Raise (e : exn).

Arguments Ok {A} a.
Arguments Raise {A} e.

#[global] Instance result_ret : MRet result := fun _ a => Ok a.

#[global] Instance result_bind : MBind result := fun _ _ k r =>
  match r with
  | Ok a => k a
  | Raise e => Raise e
  end.

(** A list comprehension whose element expression may raise: elements are
    evaluated left to right and the first exception escapes. *)
Fixpoint list_comp {A B : Type} (f : A -> result B) (l : list A) : result (list B) :=
  match l with
  | [] => Ok []
  | x :: l' => y ← f x; ys ← list_comp f l'; Ok (y :: ys)
  end.

(** [d[k]] *)
Definition getitem (d : gmap string value) (k : string) : result value :=
  match d !! k with
  | Some v => Ok v
  | None => Raise (KeyError k)
  end.

(** ** Strings *)

Definition nl : string := String (ascii_of_nat 10) EmptyString.

(** [str(z)] for an int *)
Definition str_of_int (z : Z) : string := NilZero.string_of_int (Z.to_int z).

(** [f"{v}"] *)
Definition py_str (v : value) : string :=
  match v with
  | VNone => "None"
  | VInt z => str_of_int z
  | VStr s => s
  end.

(** [bool(v)] *)
Definition truthy (v : value) : bool :=
  match v with
  | VNone => false
  | VInt z => negb (z =? 0)
  | VStr s => negb (String.eqb s "")
  end.

(** ** Numbers *)

(** [a < b]: integers by value, strings lexicographically, anything else is
    a TypeError. *)
Definition py_lt (a b : value) : result bool :=
  match a, b with
  | VInt x, VInt y => Ok (x <? y)
  | VStr s, VStr t => Ok (String.ltb s t)
  | _, _ => Raise TypeError
  end.

Definition py_gt (a b : value) : result bool := py_lt b a.

(** [min(l)] and [max(l)]: the first element is the candidate, a later
    element replaces it when it is strictly smaller (larger). *)
Fixpoint py_min_from (cur : value) (l : list value) : result value :=
  match l with
  | [] => Ok cur
  | x :: l' => b ← py_lt x cur; py_min_from (if b : bool then x else cur) l'
  end.

Definition py_min (l : list value) : result value :=
  match l with
  | [] => Raise (ValueError "min() arg is an empty sequence")
  | x :: l' => py_min_from x l'
  end.

Fixpoint py_max_from (cur : value) (l : list value) : result value :=
  match l with
  | [] => Ok cur
  | x :: l' => b ← py_gt x cur; py_max_from (if b : bool then x else cur) l'
  end.

Definition py_max (l : list value) : result value :=
  match l with
  | [] => Raise (ValueError "max() arg is an empty sequence")
  | x :: l' => py_max_from x l'
  end.

(** The integer [z] as the operand of a float operation. *)
Definition float_of_int (z : Z) : spec_float :=
  match z with
  | Z0 => S754_zero false
  | Zpos p => S754_finite false p 0
  | Zneg p => S754_finite true p 0
  end.

(** [a / b] on ints: the exact quotient rounded to the nearest binary64,
    ties to even; OverflowError when it is too large for a float. *)
Definition int_truediv (a b : Z) : result spec_float :=
  if b =? 0 then Raise ZeroDivisionError
  else match SFdiv 53 1024 (float_of_int a) (float_of_int b) with
       | S754_infinity _ => Raise OverflowError
       | q => Ok q
       end.

(** [v / b] for an attribute value [v] and an int literal [b] *)
Definition py_truediv (v : value) (b : Z) : result spec_float :=
  match v with
  | VInt z => int_truediv z b
  | _ => Raise TypeError
  end.

(** [math.floor(x)] and [math.ceil(x)]: the float [(-1)^s * m * 2^e] to the
    int below (above) it. *)
Definition math_floor (x : spec_float) : result Z :=
  match x with
  | S754_zero _ => Ok 0
  | S754_finite s m e => Ok (Z.shiftl (cond_Zopp s (Zpos m)) e)
  | S754_infinity _ => Raise OverflowError
  | S754_nan => Raise (ValueError "cannot convert float NaN to integer")
  end.

Definition math_ceil (x : spec_float) : result Z :=
  match x with
  | S754_zero _ => Ok 0
  | S754_finite s m e => Ok (- Z.shiftl (- cond_Zopp s (Zpos m)) e)
  | S754_infinity _ => Raise OverflowError
  | S754_nan => Raise (ValueError "cannot convert float NaN to integer")
  end.

(** ** collections.Counter and max by count *)

(** [c[x] += 1]: an existing key keeps its position, a new key goes last. *)
Fixpoint counter_incr (x : value) (c : list (value * nat)) : list (value * nat) :=
  match c with
  | [] => [(x, 1%nat)]
  | (k, n) :: c' =>
      if decide (k = x) then (k, S n) :: c' else (k, n) :: counter_incr x c'
  end.

Definition Counter (l : list value) : list (value * nat) :=
  fold_left (fun c x => counter_incr x c) l [].

(** [max(items, key=operator.itemgetter(1))] *)
Fixpoint max_by_count_from (cur : value * nat) (items : list (value * nat)) : value * nat :=
  match items with
  | [] => cur
  | it :: items' =>
      max_by_count_from (if (snd cur <? snd it)%nat then it else cur) items'
  end.

Definition max_by_count (items : list (value * nat)) : result (value * nat) :=
  match items with
  | [] => Raise (ValueError "max() arg is an empty sequence")
  | it :: items' => Ok (max_by_count_from it items')
  end.

(** [max(collections.Counter(names).items(), key=operator.itemgetter(1))[0]] *)
Definition most_common_name (street_names : list value) : result value :=
  it ← max_by_count (Counter street_names); Ok (fst it).

(** ** construct_engineer_note *)

Definition construct_engineer_note (data : gmap string value) : result string :=
  action_value ← getitem data "INSTRUCTIONS";
  instructions ← getitem data "INSTRUCTIONS";
  let action := "Action: " +:+ py_str instructions +:+ nl in
  c ← getitem data "COMMENTS";
  comments ← (if truthy c
              then c' ← getitem data "COMMENTS"; Ok ("Note: " +:+ py_str c' +:+ nl)
              else Ok "");
  cur ← getitem data "CURRENT_SPEED_LIMIT";
  let current_spd := "Speed Limit: " +:+ py_str cur +:+ nl in
  fut ← getitem data "FUTURE_SPEED_LIMIT";
  let future_spd := "Speed limit: " +:+ py_str fut +:+ nl in
  cs ← getitem data "CUSTOM_SIGN";
  custom_sign ← (if truthy cs
                 then cs' ← getitem data "CUSTOM_SIGN"; Ok ("Custom sign: " +:+ py_str cs' +:+ nl)
                 else Ok "");
  st ← getitem data "SIGN_TYPE";
  let sign_type := "Size: " +:+ py_str st +:+ nl in
  if bool_decide (action_value = VStr "REPLACE") || bool_decide (action_value = VStr "INSTALL")
  then Ok (String.concat "" [action; future_spd; sign_type; custom_sign; comments])
  else if bool_decide (action_value = VStr "REMOVE")
  then Ok (String.concat "" [action; current_spd; comments])
  else Raise (ValueError
                ("Unknown INSTRUCTIONS value for sign feature: " +:+ py_str action_value)).

(** ** Features, work orders and the enrichment steps *)

Inductive layer_name := SignsLayer | EngAreasLayer | StreetSegmentsLayer.

Inductive log_level := Info | Warning | Error.

Section Model.

(** A geometry of the feature service, with its spatial reference. All the
    geometry operations belong to arcgis and shapely and are parameters. *)
Variable Geometry : Type.

Record Feature := {
  geometry : Geometry;
  attributes : gmap string value
}.

(** [loads(Geometry(a).WKT).distance(loads(Geometry(b).WKT))] *)
Variable shape_distance : Geometry -> Geometry -> spec_float.
(** [Geometry(g).is_valid()], [str(g)], and the centroid of [g] as a point *)
Variable is_valid : Geometry -> bool.
Variable geometry_repr : Geometry -> string.
Variable centroid : Geometry -> Geometry.

(** The layers of the feature service, each given by its answer to
    [query(geometry_filter=intersects(g), ...)]. *)
Record Layers := {
  signs_layer : Geometry -> list Feature;
  street_segments_layer : Geometry -> list Feature;
  eng_areas_layer : Geometry -> list Feature
}.

Inductive event :=
| Query (l : layer_name) (filter : Geometry)
| Log (level : log_level) (msg : string)
| Sync (call : string).   (* a request of the Knack and AGOL write-back steps *)

(** The geometry stands for the intersection filter built from it. *)
Definition create_geom_filter (g : Geometry) : result Geometry :=
  if is_valid g then Ok g
  else Raise (ValueError ("Invalid feature geometry: " +:+ geometry_repr g)).

(** One iteration of the loop of [find_nearest_feature] on the pair
    [(nearest_feature, distance_shortest)]. *)
Definition nearest_step (input_feature : Feature)
    (acc : option Feature * spec_float) (search_feature : Feature)
    : option Feature * spec_float :=
  let distance_current :=
    shape_distance (geometry input_feature) (geometry search_feature) in
  if SFltb distance_current (snd acc)
  then (Some search_feature, distance_current)
  else acc.

Definition find_nearest_feature (input_feature : Feature)
    (search_features : list Feature) : option Feature * spec_float :=
  fold_left (nearest_step input_feature) search_features
            (None, S754_infinity false).

Definition block_range (segments : list Feature) : result (Z * Z) :=
  froms ← list_comp (fun s => getitem (attributes s) "LEFT_BLOCK_FROM") segments;
  blk_start ← py_min froms;
  tos ← list_comp (fun s => getitem (attributes s) "LEFT_BLOCK_TO") segments;
  blk_end ← py_max tos;
  q_start ← py_truediv blk_start 100;
  f ← math_floor q_start;
  let blk_start_round := f * 100 in
  q_end ← py_truediv blk_end 100;
  c ← math_ceil q_end;
  let blk_end_round := c * 100 in
  Ok (blk_start_round, blk_end_round).

(** [self.signs], [self.street_segments] and [self.sign_segments] do not
    exist until the step that sets them has run. *)
Record WorkOrder := {
  wo_geometry : Geometry;
  wo_attributes : gmap string value;
  layers : Layers;
  signs : option (list Feature);
  street_segments : option (list Feature);
  sign_segments : option (list (option Feature))
}.

Definition set_attributes (a : gmap string value) (w : WorkOrder) : WorkOrder :=
  {| wo_geometry := wo_geometry w; wo_attributes := a; layers := layers w; signs := signs w;
     street_segments := street_segments w; sign_segments := sign_segments w |}.

Definition set_signs (l : list Feature) (w : WorkOrder) : WorkOrder :=
  {| wo_geometry := wo_geometry w; wo_attributes := wo_attributes w; layers := layers w; signs := Some l;
     street_segments := street_segments w; sign_segments := sign_segments w |}.

Definition set_street_segments (l : list Feature) (w : WorkOrder) : WorkOrder :=
  {| wo_geometry := wo_geometry w; wo_attributes := wo_attributes w; layers := layers w; signs := signs w;
     street_segments := Some l; sign_segments := sign_segments w |}.

Definition set_sign_segments (l : list (option Feature)) (w : WorkOrder) : WorkOrder :=
  {| wo_geometry := wo_geometry w; wo_attributes := wo_attributes w; layers := layers w; signs := signs w;
     street_segments := street_segments w; sign_segments := Some l |}.

(** *** The monad of methods: state is [self] and the trace so far *)

Definition state : Type := WorkOrder * list event.

Definition M (A : Type) : Type := state -> result A * state.

#[global] Instance M_ret : MRet M := fun _ a st => (Ok a, st).

#[global] Instance M_bind : MBind M := fun _ _ k m st =>
  match m st with
  | (Ok a, st') => k a st'
  | (Raise e, st') => (Raise e, st')
  end.

Definition lift {A : Type} (r : result A) : M A := fun st => (r, st).

Definition get_self : M WorkOrder := fun st => (Ok (fst st), st).

Definition modify_self (f : WorkOrder -> WorkOrder) : M unit :=
  fun st => (Ok tt, (f (fst st), snd st)).

Definition emit (e : event) : M unit :=
  fun st => (Ok tt, (fst st, snd st ++ [e])).

(** [self.<name>] for an attribute set by an earlier step *)
Definition getattr {A : Type} (name : string) (field : option A) : M A :=
  match field with
  | Some x => mret x
  | None => lift (Raise (AttributeError name))
  end.

Definition get_signs : M unit :=
  self ← get_self;
  _ ← emit (Query SignsLayer (wo_geometry self));
  modify_self (set_signs (signs_layer (layers self) (wo_geometry self))).

Definition identify_eng_area : M unit :=
  let key := "ATD_ENGINEER_AREAS" in
  self ← get_self;
  wo_centroid_filter ← lift (create_geom_filter (centroid (wo_geometry self)));
  _ ← emit (Query EngAreasLayer wo_centroid_filter);
  match eng_areas_layer (layers self) wo_centroid_filter with
  | [] =>
      oid ← lift (getitem (wo_attributes self) "OBJECTID");
      _ ← emit (Log Warning ("No work area found for " +:+ py_str oid));
      modify_self (set_attributes (<["WORK_AREA" := VNone]> (wo_attributes self)))
  | area :: _ =>
      v ← lift (getitem (attributes area) key);
      modify_self (set_attributes (<["WORK_AREA" := v]> (wo_attributes self)))
  end.

Definition identify_street_segments : M unit :=
  self ← get_self;
  _ ← emit (Query StreetSegmentsLayer (wo_geometry self));
  let found := street_segments_layer (layers self) (wo_geometry self) in
  _ ← modify_self (set_street_segments found);
  match found with
  | [] =>
      oid ← lift (getitem (wo_attributes self) "OBJECTID");
      lift (Raise (ValueError
        ("No street segments found at work order location: " +:+ py_str oid)))
  | _ :: _ => mret tt
  end.

Definition identify_nearest_sign_segments : M unit :=
  _ ← modify_self (set_sign_segments []);
  self ← get_self;
  sgns ← getattr "signs" (signs self);
  match sgns with
  | [] => mret tt
  | _ :: _ =>
      segs ← getattr "street_segments" (street_segments self);
      modify_self (set_sign_segments
        (map (fun sign => fst (find_nearest_feature sign segs)) sgns))
  end.

(** [s.attributes["FULL_STREET_NAME"]] for an element of [self.sign_segments] *)
Definition street_name (s : option Feature) : result value :=
  match s with
  | None => Raise (AttributeError "attributes")
  | Some f => getitem (attributes f) "FULL_STREET_NAME"
  end.

(** [[s for s in sign_segments if s.attributes["FULL_STREET_NAME"] == name]] *)
Fixpoint segments_named (name : value) (l : list (option Feature))
    : result (list Feature) :=
  match l with
  | [] => Ok []
  | None :: _ => Raise (AttributeError "attributes")
  | Some f :: l' =>
      n ← getitem (attributes f) "FULL_STREET_NAME";
      rest ← segments_named name l';
      Ok (if bool_decide (n = name) then f :: rest else rest)
  end.

Definition location_name (n : nat) (blk_start blk_end : Z) (name : value) : string :=
  if (n =? 1)%nat
  then str_of_int blk_start +:+ " BLK " +:+ py_str name
  else str_of_int blk_start +:+ "-" +:+ str_of_int blk_end +:+ " " +:+ py_str name.

Definition construct_location : M unit :=
  self ← get_self;
  matched ← getattr "sign_segments" (sign_segments self);
  street_names ← lift (list_comp street_name matched);
  most_common ← lift (most_common_name street_names);
  street_segments_block_range ← lift (segments_named most_common matched);
  '(blk_start, blk_end) ← lift (block_range street_segments_block_range);
  street_segment_id ← lift (match street_segments_block_range with
                            | [] => Raise IndexError
                            | s :: _ => getitem (attributes s) "SEGMENT_ID"
                            end);
  let name := location_name (length street_segments_block_range)
                            blk_start blk_end most_common in
  modify_self (set_attributes
    (<["LOCATION_STREET_SEGMENT_ID_REFERENCE" := street_segment_id]>
       (<["GENERATED_LOCATION_FROM_API" := VStr name]> (wo_attributes self)))).

(** *** The loop of [main] *)

(** The steps after [construct_location] (resolving the editor, business
    defaults, payloads, the Knack records and the AGOL write-back) talk to
    Knack and AGOL with the configuration tables: one parameter, which
    receives the enriched work order and returns the requests it made. *)
Variable knack_sync : WorkOrder -> result unit * list event.

Definition sync : M unit :=
  fun st => let '(r, evs) := knack_sync (fst st) in (r, (fst st, snd st ++ evs)).

(** The body of [for wo in work_orders]; [continue] ends the iteration. *)
Definition process_work_order : M unit :=
  _ ← get_signs;
  wo ← get_self;
  sgns ← getattr "signs" (signs wo);
  match sgns with
  | [] =>
      oid ← lift (getitem (wo_attributes wo) "OBJECTID");
      emit (Log Warning
        ("Work order has no intersecting sign points: " +:+ py_str oid))
  | _ :: _ =>
      _ ← identify_eng_area;
      _ ← identify_street_segments;
      _ ← identify_nearest_sign_segments;
      _ ← construct_location;
      sync
  end.

(** The loop over the constructed work orders. The statements of [main]
    before it (the work-order query, the Knack user index, the construction
    of the work orders) are not modelled. An exception leaves the loop and
    [main]: nothing in [main] catches it. *)
Fixpoint main_loop (work_orders : list WorkOrder) (trace : list event)
    : result unit * list event :=
  match work_orders with
  | [] => (Ok tt, trace)
  | wo :: rest =>
      match process_work_order (wo, trace) with
      | (Ok _, (_, trace')) => main_loop rest trace'
      | (Raise e, (_, trace')) => (Raise e, trace')
      end
  end.

End Model.

Arguments Build_Feature {Geometry} geometry attributes.
Arguments Build_Layers {Geometry} _ _ _.
Arguments Build_WorkOrder {Geometry} _ _ _ _ _ _.
Arguments geometry {Geometry} _.
Arguments attributes {Geometry} _.
Arguments signs_layer {Geometry} _ _.
Arguments street_segments_layer {Geometry} _ _.
Arguments eng_areas_layer {Geometry} _ _.
Arguments Query {Geometry} l filter.
Arguments Log {Geometry} level msg.
Arguments Sync {Geometry} call.
Arguments create_geom_filter {Geometry} is_valid geometry_repr g.
Arguments nearest_step {Geometry} shape_distance input_feature acc search_feature.
Arguments find_nearest_feature {Geometry} shape_distance input_feature search_features.
Arguments block_range {Geometry} segments.
Arguments wo_geometry {Geometry} _.
Arguments wo_attributes {Geometry} _.
Arguments layers {Geometry} _.
Arguments signs {Geometry} _.
Arguments street_segments {Geometry} _.
Arguments sign_segments {Geometry} _.
Arguments set_attributes {Geometry} a w.
Arguments set_signs {Geometry} l w.
Arguments set_street_segments {Geometry} l w.
Arguments set_sign_segments {Geometry} l w.
Arguments lift {Geometry A} r.
Arguments get_self {Geometry}.
Arguments modify_self {Geometry} f.
Arguments emit {Geometry} e.
Arguments getattr {Geometry A} name field.
Arguments get_signs {Geometry}.
Arguments identify_eng_area {Geometry} is_valid geometry_repr centroid.
Arguments identify_street_segments {Geometry}.
Arguments identify_nearest_sign_segments {Geometry} shape_distance.
Arguments street_name {Geometry} s.
Arguments segments_named {Geometry} name l.
Arguments construct_location {Geometry}.
Arguments sync {Geometry} knack_sync.
Arguments process_work_order {Geometry} shape_distance is_valid geometry_repr centroid knack_sync.
Arguments main_loop {Geometry} shape_distance is_valid geometry_repr centroid knack_sync
  work_orders trace.

(** ** Auxiliary definitions for the proofs *)

(** The order of the floats other than NaN, as a lexicographic key: the class
    (minus infinity, negative, zero, positive, plus infinity), then exponent
    and mantissa, both negated for the negative numbers. *)
Definition SFkey (x : spec_float) : Z * Z * Z :=
  match x with
  | S754_nan => (0, 0, 0)
  | S754_infinity true => (-2, 0, 0)
  | S754_infinity false => (2, 0, 0)
  | S754_zero _ => (0, 0, 0)
  | S754_finite false m e => (1, e, Zpos m)
  | S754_finite true m e => (-1, - e, Zneg m)
  end.

Definition lex_lt (a b : Z * Z * Z) : Prop :=
  let '(a1, a2, a3) := a in
  let '(b1, b2, b3) := b in
  a1 < b1 \/ (a1 = b1 /\ (a2 < b2 \/ (a2 = b2 /\ a3 < b3))).

(** The distinct elements of a list in the order of their first occurrence:
    the keys of a [Counter] in iteration order. *)
Definition first_occurrences (l : list value) : list value :=
  fold_left (fun seen x => if in_dec value_eq_dec x seen then seen else seen ++ [x]) l [].

Definition count (names : list value) (x : value) : nat :=
  count_occ value_eq_dec names x.

(** ** Further definitions *)

(** A segment whose block numbers are ints that a float division by 100
    floors and ceils exactly. *)
Definition int_blocks {Geometry : Type} (s : Feature Geometry) : Prop :=
  exists f t,
    attributes s !! "LEFT_BLOCK_FROM" = Some (VInt f) /\
    attributes s !! "LEFT_BLOCK_TO" = Some (VInt t) /\
    - (100 * 2 ^ 47) < f < 100 * 2 ^ 47 /\
    - (100 * 2 ^ 47) < t < 100 * 2 ^ 47.

(** The trace of a work order that is skipped for lack of signs. *)
Definition skipped_trace {Geometry : Type} (wo : WorkOrder Geometry) : list (event Geometry) :=
  [Query SignsLayer (wo_geometry wo);
   Log Warning ("Work order has no intersecting sign points: "
                +:+ py_str (default VNone (wo_attributes wo !! "OBJECTID")))].

(** ** Editor names *)

(** [c.lower()] for an ASCII character; other bytes are left as they are. *)
Definition lower_ascii (c : ascii) : ascii :=
  let n := nat_of_ascii c in
  if (65 <=? n)%nat && (n <=? 90)%nat then ascii_of_nat (n + 32) else c.

(** [s.lower()] for a string of ASCII characters. *)
Fixpoint str_lower (s : string) : string :=
  match s with
  | EmptyString => EmptyString
  | String c rest => String (lower_ascii c) (str_lower rest)
  end.

Fixpoint ascii_only (s : string) : bool :=
  match s with
  | EmptyString => true
  | String c rest => (nat_of_ascii c <? 128)%nat && ascii_only rest
  end.

(** [s.replace(old, new)] for a non-empty [old]: the occurrences of [old]
    are found from the left and do not overlap; [skip] counts the
    characters of the current occurrence still to be dropped. *)
Fixpoint replace_from (old new : string) (skip : nat) (s : string) : string :=
  match s with
  | EmptyString => EmptyString
  | String c rest =>
      match skip with
      | S k => replace_from old new k rest
      | O =>
          if String.prefix old s
          then new +:+ replace_from old new (String.length old - 1) rest
          else String c (replace_from old new 0 rest)
      end
  end.

Definition str_replace (old new s : string) : string := replace_from old new 0 s.

Definition parse_editor_name (agol_editor_value : string) : string :=
  if String.eqb (str_lower agol_editor_value) "atd_publisher"
  then "john.clary@austintexas.gov"
  else str_lower (str_replace "_austin" "" agol_editor_value).

(** [old in s]: whether [old] occurs in [s]. *)
Fixpoint occurs (old s : string) : bool :=
  match s with
  | EmptyString => String.prefix old s
  | String _ rest => String.prefix old s || occurs old rest
  end.

(** ** map_fields *)

(** The dict comprehension over [field_map.items()], the items in the order
    of the dict: a later item with the same Knack field name overwrites an
    earlier one, and the first AGOL name missing from [data] raises. *)
Fixpoint map_fields_from (acc data : gmap string value) (items : list (string * string))
    : result (gmap string value) :=
  match items with
  | [] => Ok acc
  | (agol_field_name, knack_field_name) :: items' =>
      v ← getitem data agol_field_name;
      map_fields_from (<[knack_field_name := v]> acc) data items'
  end.

Definition map_fields (data : gmap string value) (field_map : list (string * string))
    : result (gmap string value) :=
  map_fields_from ∅ data field_map.

(** ** Responses of the feature service *)

#[warnings="-register-all"]
Inductive json :=
| JNull
| JBool (b : bool)
| JInt (z : Z)
| JStr (s : string)
| JList (l : list json)
| JDict (d : list (string * json)).

(** [bool(x)] *)
Definition json_truthy (x : json) : bool :=
  match x with
  | JNull => false
  | JBool b => b
  | JInt z => negb (z =? 0)
  | JStr s => negb (String.eqb s "")
  | JList l => match l with [] => false | _ :: _ => true end
  | JDict d => match d with [] => false | _ :: _ => true end
  end.

Fixpoint assoc_lookup (d : list (string * json)) (k : string) : option json :=
  match d with
  | [] => None
  | (k', v) :: d' => if String.eqb k' k then Some v else assoc_lookup d' k
  end.

(** [x[k]] for a string [k] *)
Definition json_getitem (x : json) (k : string) : result json :=
  match x with
  | JDict d =>
      match assoc_lookup d k with
      | Some v => Ok v
      | None => Raise (KeyError k)
      end
  | _ => Raise TypeError
  end.

(** [x[0]] *)
Definition json_first (x : json) : result json :=
  match x with
  | JList [] => Raise IndexError
  | JList (a :: _) => Ok a
  | JStr EmptyString => Raise IndexError
  | JStr (String c _) => Ok (JStr (String c EmptyString))
  | JDict _ => Raise (KeyError "0")
  | _ => Raise TypeError
  end.

(** [assert results["updateResults"][0]["success"]] under
    [except (AssertionError, KeyError, TypeError)]: [Ok true] when the
    assertion holds, [Ok false] when one of the three exceptions is caught,
    and any other exception escapes. *)
Definition update_succeeded (results : json) : result bool :=
  match (l ← json_getitem results "updateResults";
         first ← json_first l;
         json_getitem first "success") with
  | Ok flag => Ok (json_truthy flag)
  | Raise (KeyError _) => Ok false
  | Raise TypeError => Ok false
  | Raise e => Raise e
  end.

Section Sync.

Variable Geometry : Type.

(** [user_index.get(parse_editor_name(self.attributes["Editor"]))]; the
    index maps the email addresses of the Knack accounts to record ids. *)
Definition set_knack_user_id (user_index : gmap string value) : M Geometry unit :=
  self ← get_self;
  editor ← lift (getitem (wo_attributes self) "Editor");
  match editor with
  | VStr name =>
      let editor_email := parse_editor_name name in
      modify_self (set_attributes
        (<["KNACK_USER_ID" := default VNone (user_index !! editor_email)]>
           (wo_attributes self)))
  | _ => lift (Raise (AttributeError "lower"))
  end.

(** [layers.work_orders.edit_features(updates=[feature])] and [str(results)] *)
Variable edit_features : gmap string value -> Geometry -> json.
Variable results_repr : json -> string.

Definition FIELDS_TO_UPDATE : list string :=
  ["OBJECTID"; "KNACK_WORK_ORDER_ID"; "KNACK_RECORD_ID"; "WORK_ORDER_STATUS"].

Definition update_agol_work_order : M Geometry unit :=
  self ← get_self;
  let attribute_payload :=
    filter (fun kv : string * value => fst kv ∈ FIELDS_TO_UPDATE) (wo_attributes self) in
  let results := edit_features attribute_payload (wo_geometry self) in
  _ ← emit (Sync "edit_features work_orders");
  ok ← lift (update_succeeded results);
  if ok : bool then mret tt
  else
    _ ← emit (Log Error (results_repr results));
    id ← lift (getitem (wo_attributes self) "KNACK_WORK_ORDER_ID");
    lift (Raise (ValueError ("AGOL update failed for work order: " +:+ py_str id))).

End Sync.

Arguments set_knack_user_id {Geometry} user_index.
Arguments update_agol_work_order {Geometry} edit_features results_repr.

(** ** Sample data *)

Module Samples.

(** Sign attributes as the signs layer returns them. *)
Definition sign_attrs (instructions : value) (comments custom : value) : gmap string value :=
  list_to_map
    [("INSTRUCTIONS", instructions); ("COMMENTS", comments);
     ("CURRENT_SPEED_LIMIT", VInt 30); ("FUTURE_SPEED_LIMIT", VInt 25);
     ("CUSTOM_SIGN", custom); ("SIGN_TYPE", VStr "24x30")].

Definition install_sign : gmap string value :=
  sign_attrs (VStr "INSTALL") (VStr "near school") VNone.

Definition remove_sign : gmap string value :=
  sign_attrs (VStr "REMOVE") (VStr "") (VStr "SCHOOL ZONE").

Definition relocate_sign : gmap string value :=
  sign_attrs (VStr "RELOCATE") VNone VNone.

(** A REMOVE sign whose FUTURE_SPEED_LIMIT is missing. *)
Definition remove_sign_no_future : gmap string value :=
  delete "FUTURE_SPEED_LIMIT" remove_sign.

(** A toy geometry: points of a line with integer coordinates, at their
    exact distance. *)
Definition line_distance (a b : Z) : spec_float := float_of_int (Z.abs (a - b)).

Definition segment (x : Z) (name : string) (from to id : Z) : Feature Z :=
  {| geometry := x;
     attributes := list_to_map
       [("FULL_STREET_NAME", VStr name); ("LEFT_BLOCK_FROM", VInt from);
        ("LEFT_BLOCK_TO", VInt to); ("SEGMENT_ID", VInt id)] |}.

Definition main_1200 : Feature Z := segment 10 "Main St" 1210 1240 501.
Definition main_1250 : Feature Z := segment 20 "Main St" 1250 1290 502.
Definition oak_300 : Feature Z := segment 30 "Oak St" 310 380 503.
Definition elm_500 : Feature Z := segment 40 "Elm St" 500 560 504.
Definition elm_600 : Feature Z := segment 50 "Elm St" 570 650 505.

(** A segment whose block numbers exceed the precision of a float. *)
Definition huge_block : Feature Z :=
  segment 0 "Main St" 99999999999999999 99999999999999999 506.

Definition sign_at (x : Z) : Feature Z :=
  {| geometry := x; attributes := install_sign |}.

Definition engineer_area : Feature Z :=
  {| geometry := 0;
     attributes := list_to_map [("ATD_ENGINEER_AREAS", VStr "CENTRAL")] |}.

(** Three work orders, told apart by their geometry: 1 has two signs and
    three street segments, 2 has a sign and no street segment, 3 has no
    sign. *)
Definition city : Layers Z :=
  {| signs_layer := fun g =>
       if g =? 1 then [sign_at 15; sign_at 22]
       else if g =? 2 then [sign_at 40] else [];
     street_segments_layer := fun g =>
       if g =? 1 then [main_1200; main_1250; oak_300] else [];
     eng_areas_layer := fun g => if g =? 1 then [engineer_area] else [] |}.

Definition work_order (g : Z) : WorkOrder Z :=
  {| wo_geometry := g;
     wo_attributes := list_to_map
       [("OBJECTID", VInt g); ("Editor", VStr "Jane.Doe@austintexas.gov_austin")];
     layers := city;
     signs := None; street_segments := None; sign_segments := None |}.

(** Work order 1 after the matching step found these segments. *)
Definition matched_work_order : WorkOrder Z :=
  set_sign_segments [Some main_1200; Some oak_300; Some main_1250]
    (set_street_segments [main_1200; main_1250; oak_300]
       (set_signs [sign_at 15; sign_at 35; sign_at 22] (work_order 1))).

(** Work order 2 with its sign and an empty list of street segments. *)
Definition unmatched_work_order : WorkOrder Z :=
  set_street_segments [] (set_signs [sign_at 40] (work_order 2)).

(** Work order 3 with its empty list of signs and a street segment. *)
Definition signless_work_order : WorkOrder Z :=
  set_street_segments [main_1200] (set_signs [] (work_order 3)).

Definition all_valid (g : Z) : bool := true.
Definition show_geometry (g : Z) : string := str_of_int g.
Definition same_point (g : Z) : Z := g.
Definition one_request (w : WorkOrder Z) : result unit * list (event Z) :=
  (Ok tt, [Sync "create work order"]).

Definition run (work_orders : list (WorkOrder Z)) : result unit * list (event Z) :=
  main_loop line_distance all_valid show_geometry same_point one_request work_orders [].

End Samples.

(** ** More sample data *)

Module MoreSamples.

Import Samples.

(** A segment without LEFT_BLOCK_FROM. *)
Definition unnumbered : Feature Z :=
  {| geometry := 60;
     attributes := list_to_map
       [("FULL_STREET_NAME", VStr "Pine St"); ("LEFT_BLOCK_TO", VInt 90);
        ("SEGMENT_ID", VInt 507)] |}.

Definition none_valid (g : Z) : bool := false.

Definition south_area : Feature Z :=
  {| geometry := 0;
     attributes := list_to_map [("ATD_ENGINEER_AREAS", VStr "SOUTH")] |}.

(** A work order on the border of two engineer areas. *)
Definition border_work_order : WorkOrder Z :=
  {| wo_geometry := 1;
     wo_attributes := wo_attributes (work_order 1);
     layers := {| signs_layer := signs_layer city;
                  street_segments_layer := street_segments_layer city;
                  eng_areas_layer := fun g => [engineer_area; south_area] |};
     signs := None; street_segments := None; sign_segments := None |}.

Definition work_orders_map : list (string * string) :=
  [("OBJECTID", "field_3200"); ("Editor", "field_3201")].

Definition accounts : gmap string value :=
  list_to_map [("jane.doe@austintexas.gov", VStr "5f0c2a")].

(** A work order whose Editor is null. *)
Definition anonymous_work_order : WorkOrder Z :=
  set_attributes (<["Editor" := VNone]> (wo_attributes (work_order 1))) (work_order 1).

(** A work order that Knack has answered. *)
Definition created_work_order : WorkOrder Z :=
  set_attributes (<["KNACK_WORK_ORDER_ID" := VStr "WO-77"]> (wo_attributes (work_order 1)))
    (work_order 1).

Definition updated (success : json) (payload : gmap string value) (g : Z) : json :=
  JDict [("addResults", JList []);
         ("updateResults", JList [JDict [("objectId", JInt 1); ("success", success)];
                                  JDict [("objectId", JInt 2); ("success", JBool false)]])].

Definition nothing_updated (payload : gmap string value) (g : Z) : json :=
  JDict [("addResults", JList []); ("updateResults", JList [])].

Definition show_json (x : json) : string := "<results>".

End MoreSamples.

(** * Properties *)

(** ** Lookups *)

Lemma getitem_Some (d : gmap string value) k v :
  d !! k = Some v -> getitem d k = Ok v.
Proof. unfold getitem. now intros ->. Qed.

Lemma getitem_None (d : gmap string value) k :
  d !! k = None -> getitem d k = Raise (KeyError k).
Proof. unfold getitem. now intros ->. Qed.

(** ** The engineer note *)

Section EngineerNote.

Variable data : gmap string value.

Let action (ins : value) := "Action: " +:+ py_str ins +:+ nl.
Let note_line (com : value) :=
  if truthy com then "Note: " +:+ py_str com +:+ nl else "".
Let current_line (cur : value) := "Speed Limit: " +:+ py_str cur +:+ nl.
Let future_line (fut : value) := "Speed limit: " +:+ py_str fut +:+ nl.
Let custom_line (cus : value) :=
  if truthy cus then "Custom sign: " +:+ py_str cus +:+ nl else "".
Let size_line (typ : value) := "Size: " +:+ py_str typ +:+ nl.

(** With all six keys present the function is the three-way branch on
    the value of INSTRUCTIONS. *)
Lemma construct_engineer_note_eq ins com cur fut cus typ :
  data !! "INSTRUCTIONS" = Some ins ->
  data !! "COMMENTS" = Some com ->
  data !! "CURRENT_SPEED_LIMIT" = Some cur ->
  data !! "FUTURE_SPEED_LIMIT" = Some fut ->
  data !! "CUSTOM_SIGN" = Some cus ->
  data !! "SIGN_TYPE" = Some typ ->
  construct_engineer_note data =
    if bool_decide (ins = VStr "REPLACE") || bool_decide (ins = VStr "INSTALL")
    then Ok (String.concat "" [action ins; future_line fut; size_line typ;
                               custom_line cus; note_line com])
    else if bool_decide (ins = VStr "REMOVE")
    then Ok (String.concat "" [action ins; current_line cur; note_line com])
    else Raise (ValueError
                  ("Unknown INSTRUCTIONS value for sign feature: " +:+ py_str ins)).
Proof.
  intros Hi Hc Hcur Hfut Hcus Htyp.
  unfold construct_engineer_note.
  rewrite (getitem_Some _ _ _ Hi), (getitem_Some _ _ _ Hc),
    (getitem_Some _ _ _ Hcur), (getitem_Some _ _ _ Hfut),
    (getitem_Some _ _ _ Hcus), (getitem_Some _ _ _ Htyp).
  unfold note_line, custom_line, action, future_line, size_line, current_line.
  cbn [mbind result_bind].
  destruct (truthy com), (truthy cus); reflexivity.
Qed.

(** C6. [construct_engineer_note] recognizes exactly REPLACE, INSTALL and
    REMOVE. With the six keys present: for REPLACE and INSTALL the note is
    the action line, the future-speed-limit line, the sign-size line, the
    custom-sign line when CUSTOM_SIGN is truthy and the comment line when
    COMMENTS is truthy, and the current-speed-limit line is not one of its
    lines; for REMOVE the note is the action line, the current-speed-limit
    line and the comment line when COMMENTS is truthy, and neither the
    future-speed-limit nor the sign-size line is one of its lines; for any
    other value a ValueError naming the value is raised. *)
Theorem construct_engineer_note_branches ins com cur fut cus typ :
  data !! "INSTRUCTIONS" = Some ins ->
  data !! "COMMENTS" = Some com ->
  data !! "CURRENT_SPEED_LIMIT" = Some cur ->
  data !! "FUTURE_SPEED_LIMIT" = Some fut ->
  data !! "CUSTOM_SIGN" = Some cus ->
  data !! "SIGN_TYPE" = Some typ ->
  (ins = VStr "REPLACE" \/ ins = VStr "INSTALL" ->
     let lines := [action ins; future_line fut; size_line typ;
                   custom_line cus; note_line com] in
     construct_engineer_note data = Ok (String.concat "" lines) /\
     ~ In (current_line cur) lines) /\
  (ins = VStr "REMOVE" ->
     let lines := [action ins; current_line cur; note_line com] in
     construct_engineer_note data = Ok (String.concat "" lines) /\
     ~ In (future_line fut) lines /\ ~ In (size_line typ) lines) /\
  (ins <> VStr "REPLACE" -> ins <> VStr "INSTALL" -> ins <> VStr "REMOVE" ->
     construct_engineer_note data =
       Raise (ValueError
                ("Unknown INSTRUCTIONS value for sign feature: " +:+ py_str ins))).
Proof.
  intros Hi Hc Hcur Hfut Hcus Htyp.
  pose proof (construct_engineer_note_eq _ _ _ _ _ _ Hi Hc Hcur Hfut Hcus Htyp) as E.
  repeat split.
  - rewrite E. destruct H as [-> | ->]; reflexivity.
  - unfold action, future_line, size_line, custom_line, note_line, current_line.
    cbn [In]. destruct (truthy cus), (truthy com); cbn; intuition discriminate.
  - rewrite E. subst ins. reflexivity.
  - unfold action, future_line, note_line, current_line.
    cbn [In]. destruct (truthy com); cbn; intuition discriminate.
  - unfold action, size_line, note_line, current_line.
    cbn [In]. destruct (truthy com); cbn; intuition discriminate.
  - intros N1 N2 N3. rewrite E.
    rewrite !bool_decide_eq_false_2 by assumption. reflexivity.
Qed.

(** C9. All five source keys are read before the branch on INSTRUCTIONS:
    when INSTRUCTIONS is present and one of COMMENTS, CURRENT_SPEED_LIMIT,
    FUTURE_SPEED_LIMIT, CUSTOM_SIGN, SIGN_TYPE is missing, the call raises
    a KeyError for a missing one of them, whatever the value of
    INSTRUCTIONS and whether or not the branch taken would use the key. *)
Theorem construct_engineer_note_requires_all_keys ins k :
  data !! "INSTRUCTIONS" = Some ins ->
  In k ["COMMENTS"; "CURRENT_SPEED_LIMIT"; "FUTURE_SPEED_LIMIT";
        "CUSTOM_SIGN"; "SIGN_TYPE"] ->
  data !! k = None ->
  exists k',
    In k' ["COMMENTS"; "CURRENT_SPEED_LIMIT"; "FUTURE_SPEED_LIMIT";
           "CUSTOM_SIGN"; "SIGN_TYPE"] /\
    data !! k' = None /\
    construct_engineer_note data = Raise (KeyError k').
Proof.
  intros Hi Hk Hnone.
  unfold construct_engineer_note.
  rewrite (getitem_Some _ _ _ Hi). cbn [mbind result_bind].
  destruct (data !! "COMMENTS") as [com|] eqn:Hc.
  2:{ exists "COMMENTS". rewrite (getitem_None _ _ Hc).
      split; [cbn; tauto | split; [assumption | reflexivity]]. }
  rewrite !(getitem_Some _ _ _ Hc). cbn [mbind result_bind].
  assert (Hcom : forall (k : string -> result string),
             ((if truthy com
               then c' ← Ok com; Ok ("Note: " +:+ py_str c' +:+ nl)
               else Ok "") ≫= k) = k (note_line com)).
  { intros k0. unfold note_line. destruct (truthy com); reflexivity. }
  rewrite Hcom. clear Hcom.
  destruct (data !! "CURRENT_SPEED_LIMIT") as [cur|] eqn:Hcur.
  2:{ exists "CURRENT_SPEED_LIMIT". rewrite (getitem_None _ _ Hcur).
      split; [cbn; tauto | split; [assumption | reflexivity]]. }
  rewrite (getitem_Some _ _ _ Hcur). cbn [mbind result_bind].
  destruct (data !! "FUTURE_SPEED_LIMIT") as [fut|] eqn:Hfut.
  2:{ exists "FUTURE_SPEED_LIMIT". rewrite (getitem_None _ _ Hfut).
      split; [cbn; tauto | split; [assumption | reflexivity]]. }
  rewrite (getitem_Some _ _ _ Hfut). cbn [mbind result_bind].
  destruct (data !! "CUSTOM_SIGN") as [cus|] eqn:Hcus.
  2:{ exists "CUSTOM_SIGN". rewrite (getitem_None _ _ Hcus).
      split; [cbn; tauto | split; [assumption | reflexivity]]. }
  rewrite !(getitem_Some _ _ _ Hcus). cbn [mbind result_bind].
  destruct (data !! "SIGN_TYPE") as [typ|] eqn:Htyp.
  2:{ exists "SIGN_TYPE". rewrite (getitem_None _ _ Htyp).
      split; [cbn; tauto | split; [assumption |]].
      destruct (truthy cus); reflexivity. }
  exfalso. cbn [In] in Hk.
  destruct Hk as [<- | [<- | [<- | [<- | [<- | []]]]]]; congruence.
Qed.

End EngineerNote.

(** ** The order of floats *)

Lemma SFltb_key x y :
  x <> S754_nan -> y <> S754_nan ->
  (SFltb x y = true <-> lex_lt (SFkey x) (SFkey y)).
Proof.
  intros Hx Hy. unfold SFltb, SFcompare, lex_lt, SFkey.
  destruct x as [[]|[]| |[] mx ex], y as [[]|[]| |[] my ey];
    try congruence; try (split; [discriminate | lia]); try (split; [lia | reflexivity]);
    try (split; [reflexivity | lia]).
  all: change (Pos.compare_cont Eq ?a ?b) with (Pos.compare a b).
  all: destruct (Z.compare_spec ex ey), (Pos.compare_spec mx my); cbn;
    split; intros; try discriminate; try reflexivity; try lia.
Qed.

Lemma SFleb_key x y :
  x <> S754_nan -> y <> S754_nan ->
  (SFleb x y = true <-> ~ lex_lt (SFkey y) (SFkey x)).
Proof.
  intros Hx Hy. unfold SFleb, SFcompare, lex_lt, SFkey.
  destruct x as [[]|[]| |[] mx ex], y as [[]|[]| |[] my ey];
    try congruence; try (split; [discriminate | lia]); try (split; [lia | reflexivity]);
    try (split; [reflexivity | lia]).
  all: change (Pos.compare_cont Eq ?a ?b) with (Pos.compare a b).
  all: destruct (Z.compare_spec ex ey), (Pos.compare_spec mx my); cbn;
    split; intros; try discriminate; try reflexivity; try lia.
Qed.

Lemma SFltb_inf_not_nan x : SFltb x (S754_infinity false) = true -> x <> S754_nan.
Proof. intros H ->. discriminate. Qed.

Lemma lex_lt_cases (a b : Z * Z * Z) : lex_lt a b \/ a = b \/ lex_lt b a.
Proof.
  destruct a as [[a1 a2] a3], b as [[b1 b2] b3]. unfold lex_lt.
  destruct (Z.lt_total a1 b1) as [?|[?|?]]; [lia | | lia].
  destruct (Z.lt_total a2 b2) as [?|[?|?]]; [lia | | lia].
  destruct (Z.lt_total a3 b3) as [?|[?|?]]; [lia | | lia].
  right; left. congruence.
Qed.

Lemma lex_lt_irrefl (a : Z * Z * Z) : ~ lex_lt a a.
Proof. destruct a as [[a1 a2] a3]. unfold lex_lt. lia. Qed.

Lemma lex_lt_trans (a b c : Z * Z * Z) : lex_lt a b -> lex_lt b c -> lex_lt a c.
Proof.
  destruct a as [[a1 a2] a3], b as [[b1 b2] b3], c as [[c1 c2] c3].
  unfold lex_lt. lia.
Qed.

Lemma lex_lt_le_trans (a b c : Z * Z * Z) : lex_lt a b -> ~ lex_lt c b -> lex_lt a c.
Proof.
  destruct a as [[a1 a2] a3], b as [[b1 b2] b3], c as [[c1 c2] c3].
  unfold lex_lt. lia.
Qed.

Lemma SFleb_refl x : x <> S754_nan -> SFleb x x = true.
Proof. intros Hx. apply SFleb_key; auto using lex_lt_irrefl. Qed.

Lemma SFleb_of_not_ltb x y :
  x <> S754_nan -> y <> S754_nan -> SFltb x y = false -> SFleb y x = true.
Proof.
  intros Hx Hy H. apply SFleb_key; auto.
  intros L. apply SFltb_key in L; auto. congruence.
Qed.

Lemma SFltb_leb_trans x y z :
  x <> S754_nan -> y <> S754_nan -> z <> S754_nan ->
  SFltb x y = true -> SFleb y z = true -> SFltb x z = true.
Proof.
  intros Hx Hy Hz L1 L2.
  apply SFltb_key in L1; auto. apply SFleb_key in L2; auto.
  apply SFltb_key; auto. eapply lex_lt_le_trans; eauto.
Qed.

Lemma SFltb_leb x y :
  x <> S754_nan -> y <> S754_nan -> SFltb x y = true -> SFleb x y = true.
Proof.
  intros Hx Hy L. apply SFltb_key in L; auto. apply SFleb_key; auto.
  intros L'. exact (lex_lt_irrefl _ (lex_lt_trans _ _ _ L L')).
Qed.

(** ** The nearest-feature matcher *)

Section NearestFeature.

Context {Geometry : Type}.
Variable shape_distance : Geometry -> Geometry -> spec_float.
Variable target : Feature Geometry.

Let dist (c : Feature Geometry) : spec_float :=
  shape_distance (geometry target) (geometry c).
Let nearest_of := find_nearest_feature shape_distance target.

Lemma find_nearest_feature_snoc p c :
  nearest_of (p ++ [c]) = nearest_step shape_distance target (nearest_of p) c.
Proof. unfold nearest_of, find_nearest_feature. now rewrite fold_left_app. Qed.

(** The state of the loop after the candidates [p]: nothing found yet, or
    the earliest of the nearest candidates of [p] with its distance. *)
Lemma find_nearest_feature_invariant p :
  (forall c, In c p -> SFltb (dist c) (S754_infinity false) = true) ->
  match nearest_of p with
  | (None, d) => p = [] /\ d = S754_infinity false
  | (Some n, d) =>
      d = dist n /\
      exists i : nat,
        p !! i = Some n /\
        (forall c, In c p -> SFleb d (dist c) = true) /\
        (forall (j : nat) c, (j < i)%nat -> p !! j = Some c -> SFltb d (dist c) = true)
  end.
Proof.
  induction p as [|c p IH] using rev_ind; intros Hfin.
  - cbn. auto.
  - rewrite find_nearest_feature_snoc.
    assert (Hp : forall c, In c p -> SFltb (dist c) (S754_infinity false) = true).
    { intros c' Hc'. apply Hfin, in_or_app. now left. }
    assert (Hc : SFltb (dist c) (S754_infinity false) = true).
    { apply Hfin, in_or_app. right. now left. }
    assert (Nc : dist c <> S754_nan) by now apply SFltb_inf_not_nan.
    assert (Np : forall c', In c' p -> dist c' <> S754_nan).
    { intros c' Hc'. now apply SFltb_inf_not_nan, Hp. }
    specialize (IH Hp).
    destruct (nearest_of p) as [[n|] d]; unfold nearest_step; cbn [snd].
    + destruct IH as [-> (i & Hi & Hle & Hlt)].
      assert (Hn : In n p).
      { apply list_elem_of_In, list_elem_of_lookup. eauto. }
      assert (Nn : dist n <> S754_nan) by auto.
      fold (dist c).
      destruct (SFltb (dist c) (dist n)) eqn:E.
      * split; [reflexivity |]. exists (length p). split; [| split].
        -- rewrite lookup_app_r by lia. now rewrite Nat.sub_diag.
        -- intros c' [Hc' | [<- | []]]%in_app_or.
           ++ apply SFltb_leb; auto. eapply SFltb_leb_trans; eauto.
           ++ now apply SFleb_refl.
        -- intros j c' Hj Hc'. rewrite lookup_app_l in Hc' by lia.
           assert (In c' p).
           { apply list_elem_of_In, list_elem_of_lookup. eauto. }
           eapply SFltb_leb_trans; eauto.
      * split; [reflexivity |]. exists i. split; [| split].
        -- apply lookup_app_l_Some. assumption.
        -- intros c' [Hc' | [<- | []]]%in_app_or; auto.
           now apply SFleb_of_not_ltb.
        -- intros j c' Hj Hc'.
           assert (i < length p)%nat by (eapply lookup_lt_Some; eauto).
           rewrite lookup_app_l in Hc' by lia. eauto.
    + destruct IH as [-> ->]. fold (dist c). rewrite Hc.
      split; [reflexivity |]. exists 0%nat. split; [reflexivity | split].
      * intros c' [<- | []]. now apply SFleb_refl.
      * intros j c' Hj. lia.
Qed.

(** C1. On the empty candidate list the result is [(None, +inf)]. On a
    non-empty list whose candidates all lie at a distance below +inf from
    the target, the result is [(nearest, d)] where [nearest] is the
    candidate at some index [i], [d] is the distance from the target to
    [nearest], [d] is at most the distance to every candidate, and every
    candidate before index [i] is strictly farther: among the candidates
    at the minimum distance the earliest one is returned. *)
Theorem find_nearest_feature_correct (candidates : list (Feature Geometry)) :
  find_nearest_feature shape_distance target [] = (None, S754_infinity false) /\
  (candidates <> [] ->
   (forall c, In c candidates -> SFltb (dist c) (S754_infinity false) = true) ->
   exists (i : nat) nearest,
     find_nearest_feature shape_distance target candidates = (Some nearest, dist nearest) /\
     candidates !! i = Some nearest /\
     (forall c, In c candidates -> SFleb (dist nearest) (dist c) = true) /\
     (forall (j : nat) c, (j < i)%nat -> candidates !! j = Some c ->
                          SFltb (dist nearest) (dist c) = true)).
Proof.
  split; [reflexivity |].
  intros Hne Hfin.
  pose proof (find_nearest_feature_invariant candidates Hfin) as Inv.
  fold nearest_of. destruct (nearest_of candidates) as [[n|] d].
  - destruct Inv as [-> (i & Hi & Hle & Hlt)]. exists i, n. auto.
  - destruct Inv as [-> _]. contradiction.
Qed.

End NearestFeature.

(** ** The most common street name *)

Section MostCommonName.

Implicit Types (names p ks : list value) (x y : value).

Lemma first_occurrences_snoc p x :
  first_occurrences (p ++ [x]) =
    if in_dec value_eq_dec x (first_occurrences p)
    then first_occurrences p else first_occurrences p ++ [x].
Proof. unfold first_occurrences. now rewrite fold_left_app. Qed.

Lemma first_occurrences_In p x : In x (first_occurrences p) <-> In x p.
Proof.
  induction p as [|y p IH] using rev_ind; [reflexivity |].
  rewrite first_occurrences_snoc.
  destruct (in_dec value_eq_dec y (first_occurrences p)) as [Hy | Hy];
    rewrite ?in_app_iff; cbn; split; intros H.
  - left. tauto.
  - destruct H as [H | [<- | []]]; tauto.
  - tauto.
  - tauto.
Qed.

Lemma first_occurrences_NoDup p : List.NoDup (first_occurrences p).
Proof.
  induction p as [|y p IH] using rev_ind; [constructor |].
  rewrite first_occurrences_snoc.
  destruct (in_dec value_eq_dec y (first_occurrences p)) as [Hy | Hy]; [assumption |].
  apply NoDup_ListNoDup, NoDup_app.
  split; [now apply NoDup_ListNoDup | split; [| apply NoDup_singleton]].
  intros z Hz Hz'. apply list_elem_of_In in Hz.
  apply list_elem_of_In in Hz'. destruct Hz' as [<- | []]. contradiction.
Qed.

(** A key of the counter was first seen after all the keys before it. *)
Lemma first_occurrences_split p k1 x k2 :
  first_occurrences p = k1 ++ x :: k2 ->
  exists pre post,
    p = pre ++ x :: post /\ ~ In x pre /\ forall y, In y pre -> In y k1.
Proof.
  revert k1 x k2. induction p as [|z p IH] using rev_ind; intros k1 x k2 E.
  - destruct k1; discriminate.
  - rewrite first_occurrences_snoc in E.
    destruct (in_dec value_eq_dec z (first_occurrences p)) as [Hz | Hz].
    + destruct (IH _ _ _ E) as (pre & post & -> & Hpre & Hk).
      exists pre, (post ++ [z]). rewrite <- app_assoc. auto.
    + destruct k2 as [|w k2 _] using rev_ind.
      * apply app_inj_tail in E as [E <-].
        exists p, []. repeat split.
        -- now rewrite <- first_occurrences_In.
        -- intros y Hy. rewrite <- E. now apply first_occurrences_In.
      * change (k1 ++ x :: k2 ++ [w]) with (k1 ++ (x :: k2) ++ [w]) in E.
        rewrite app_assoc in E. apply app_inj_tail in E as [E <-].
        destruct (IH _ _ _ E) as (pre & post & -> & Hpre & Hk).
        exists pre, (post ++ [z]). rewrite <- app_assoc. auto.
Qed.

Lemma Counter_snoc p x : Counter (p ++ [x]) = counter_incr x (Counter p).
Proof. unfold Counter. now rewrite fold_left_app. Qed.

Lemma counter_incr_map (g : value -> nat) ks x :
  List.NoDup ks ->
  counter_incr x (map (fun k => (k, g k)) ks) =
    map (fun k => (k, if decide (k = x) then S (g k) else g k)) ks
    ++ (if in_dec value_eq_dec x ks then [] else [(x, 1%nat)]).
Proof.
  induction ks as [|k ks IH]; intros ND; [reflexivity |].
  inversion ND as [|? ? Hk ND']; subst.
  cbn [map counter_incr]. destruct (decide (k = x)) as [-> | Hne].
  - destruct (in_dec value_eq_dec x (x :: ks)) as [_ | N]; [| exfalso; apply N; now left].
    rewrite app_nil_r. cbn [map]. f_equal.
    apply map_ext_in. intros k Hin. destruct (decide (k = x)) as [-> | _]; [| reflexivity].
    contradiction.
  - rewrite (IH ND'). cbn [app].
    destruct (in_dec value_eq_dec x ks) as [Hx | Hx], (in_dec value_eq_dec x (k :: ks)) as [Hx' | Hx'];
      try reflexivity.
    + exfalso. apply Hx'. now right.
    + exfalso. destruct Hx' as [-> | ?]; contradiction.
Qed.

Lemma count_snoc p x y :
  count (p ++ [x]) y = if decide (y = x) then S (count p y) else count p y.
Proof.
  unfold count. rewrite count_occ_app. cbn.
  destruct (value_eq_dec x y) as [E | N]; destruct (decide (y = x)) as [E' | N'];
    try lia; congruence.
Qed.

(** The counter lists every distinct name once, in the order of first
    occurrence, with its number of occurrences. *)
Lemma Counter_spec names :
  Counter names = map (fun k => (k, count names k)) (first_occurrences names).
Proof.
  induction names as [|x p IH] using rev_ind; [reflexivity |].
  rewrite Counter_snoc, IH, counter_incr_map by apply first_occurrences_NoDup.
  rewrite first_occurrences_snoc.
  destruct (in_dec value_eq_dec x (first_occurrences p)) as [Hx | Hx].
  - rewrite app_nil_r. apply map_ext. intros k. now rewrite count_snoc.
  - rewrite map_app. cbn [map]. f_equal.
    + apply map_ext. intros k. now rewrite count_snoc.
    + rewrite count_snoc, decide_True by reflexivity.
      unfold count. rewrite (proj1 (count_occ_not_In _ _ _)); [reflexivity |].
      now rewrite <- first_occurrences_In.
Qed.

(** [max] with a key returns the first of the items with the largest key. *)
Lemma max_by_count_from_spec (items : list (value * nat)) (cur : value * nat) :
  exists l1 l2,
    cur :: items = l1 ++ max_by_count_from cur items :: l2 /\
    (forall it, In it l1 -> (snd it < snd (max_by_count_from cur items))%nat) /\
    (forall it, In it l2 -> (snd it <= snd (max_by_count_from cur items))%nat).
Proof.
  revert cur. induction items as [|it items IH]; intros cur.
  - exists [], []. cbn. repeat split; intros ? [].
  - cbn [max_by_count_from]. destruct (Nat.ltb_spec (snd cur) (snd it)) as [Hlt | Hge].
    + destruct (IH it) as (l1 & l2 & E & H1 & H2).
      remember (max_by_count_from it items) as best eqn:Hbest.
      assert (snd it <= snd best)%nat.
      { destruct l1 as [|a l1]; cbn in E; injection E as E0 E'.
        - rewrite E0. lia.
        - specialize (H1 a (or_introl eq_refl)). rewrite <- E0 in H1. lia. }
      exists (cur :: l1), l2. split; [cbn; now rewrite E | split; auto].
      intros it' [<- | Hin]; [lia | auto].
    + destruct (IH cur) as (l1 & l2 & E & H1 & H2).
      remember (max_by_count_from cur items) as best eqn:Hbest.
      destruct l1 as [|a l1]; cbn in E; injection E as E0 E'.
      * exists [], (it :: l2). split; [cbn; now rewrite E0, E' | split].
        -- intros ? [].
        -- intros it' [<- | Hin]; [rewrite <- E0; lia | auto].
      * exists (cur :: it :: l1), l2. split; [cbn; now rewrite E' | split; auto].
        specialize (H1 a (or_introl eq_refl)) as Ha. rewrite <- E0 in Ha.
        intros it' [<- | [<- | Hin]]; [assumption | lia |].
        apply H1. now right.
Qed.

(** C2. From a non-empty list of street names (one per matched segment, in
    sign order) the synthesis selects a name of the list with the highest
    number of occurrences, and every name seen before the first occurrence
    of the selected one occurs strictly less often: among the names with
    the maximal count the first in sign order is selected. *)
Theorem most_common_name_first_maximal names :
  names <> [] ->
  exists name pre post,
    most_common_name names = Ok name /\
    names = pre ++ name :: post /\
    ~ In name pre /\
    (forall other, (count names other <= count names name)%nat) /\
    (forall other, In other pre -> (count names other < count names name)%nat).
Proof.
  intros Hne. unfold most_common_name. rewrite Counter_spec.
  destruct (first_occurrences names) as [|k ks] eqn:Eks.
  { destruct names as [|x l]; [contradiction |].
    assert (H : In x (first_occurrences (x :: l))) by (apply first_occurrences_In; now left).
    rewrite Eks in H. destruct H. }
  cbn [map max_by_count mbind result_bind].
  destruct (max_by_count_from_spec (map (fun k => (k, count names k)) ks)
              (k, count names k)) as (l1 & l2 & E & H1 & H2).
  set (best := max_by_count_from _ _) in *.
  change ((k, count names k) :: map (fun k => (k, count names k)) ks)
    with (map (fun k => (k, count names k)) (k :: ks)) in E.
  rewrite <- Eks in E.
  apply map_eq_app in E as (k1 & k2' & Ek & <- & E2).
  destruct k2' as [|name k2]; [discriminate |].
  cbn [map] in E2. injection E2 as Ebest <-.
  destruct (first_occurrences_split _ _ _ _ Ek) as (pre & post & Enames & Hpre & Hk).
  exists name, pre, post. rewrite <- Ebest. cbn [fst snd] in *.
  repeat split; auto.
  - intros other. destruct (in_dec value_eq_dec other names) as [Hin | Hnot].
    + apply first_occurrences_In in Hin. rewrite Ek in Hin.
      rewrite <- Ebest in H1, H2. cbn [snd] in H1, H2.
      apply in_app_or in Hin as [Hin | [<- | Hin]].
      * apply Nat.lt_le_incl. apply (H1 (other, count names other)).
        apply (in_map (fun k => (k, count names k))), Hin.
      * lia.
      * apply (H2 (other, count names other)).
        apply (in_map (fun k => (k, count names k))), Hin.
    + unfold count at 1. rewrite (proj1 (count_occ_not_In _ _ _) Hnot). lia.
  - intros other Hin. rewrite <- Ebest in H1. cbn [snd] in H1.
    apply (H1 (other, count names other)).
    apply (in_map (fun k => (k, count names k))), Hk, Hin.
Qed.

End MostCommonName.

(** ** Float division by 100 *)

Lemma digits2_pos_bounds p :
  2 ^ (Zpos (digits2_pos p) - 1) <= Zpos p < 2 ^ Zpos (digits2_pos p).
Proof.
  induction p as [p IH | p IH |]; cbn [digits2_pos].
  - rewrite Pos2Z.inj_succ, (Pos2Z.inj_xI p).
    replace (Z.succ (Zpos (digits2_pos p)) - 1) with (Z.succ (Zpos (digits2_pos p) - 1)) by lia.
    rewrite !Z.pow_succ_r by lia. lia.
  - rewrite Pos2Z.inj_succ, (Pos2Z.inj_xO p).
    replace (Z.succ (Zpos (digits2_pos p)) - 1) with (Z.succ (Zpos (digits2_pos p) - 1)) by lia.
    rewrite !Z.pow_succ_r by lia. lia.
  - cbn. lia.
Qed.

Lemma Zdigits2_eq q d :
  0 < d -> 2 ^ (d - 1) <= q < 2 ^ d -> Zdigits2 q = d.
Proof.
  intros Hd [Hlo Hhi].
  assert (0 < q) by (pose proof (Z.pow_pos_nonneg 2 (d - 1)); lia).
  destruct q as [|p|p]; try lia. cbn [Zdigits2].
  pose proof (digits2_pos_bounds p) as [Blo Bhi].
  set (D := Zpos (digits2_pos p)) in *.
  destruct (Z.lt_trichotomy D d) as [L | [E | G]]; [exfalso | assumption | exfalso].
  - assert (2 ^ D <= 2 ^ (d - 1)) by (apply Z.pow_le_mono_r; lia). lia.
  - assert (2 ^ d <= 2 ^ (D - 1)) by (apply Z.pow_le_mono_r; lia). lia.
Qed.

Lemma loc_of_shr_record_of_loc m l :
  loc_of_shr_record (shr_record_of_loc m l) = l.
Proof. destruct l as [|[]]; reflexivity. Qed.

Lemma shr_m_record_of_loc m l : shr_m (shr_record_of_loc m l) = m.
Proof. destruct l as [|[]]; reflexivity. Qed.

Lemma round_nearest_even_bounds m l :
  m <= round_nearest_even m l <= m + 1.
Proof.
  unfold round_nearest_even. destruct l as [|[]]; try lia.
  destruct (Z.even m); lia.
Qed.

(** The second normalisation of [binary_round_aux]: a rounded mantissa of
    53 bits is kept, and [2^53] becomes [2^52] with the next exponent. *)
Lemma binary_round_finish (sx : bool) m1 e :
  2 ^ 52 <= m1 <= 2 ^ 53 -> -1074 <= e <= 950 ->
  exists m e',
    (let '(mrs, e'') := shr_fexp 53 1024 m1 e loc_Exact in
     match shr_m mrs with
     | 0 => S754_zero sx
     | Zpos m => if e'' <=? 1024 - 53 then S754_finite sx m e'' else S754_infinity sx
     | Zneg _ => S754_nan
     end) = S754_finite sx m e' /\
    e <= e' <= e + 1 /\
    Zpos m * 2 ^ (e' - e) = m1.
Proof.
  intros Hm He. unfold shr_fexp, fexp, emin.
  destruct (Z.eq_dec m1 (2 ^ 53)) as [E | N].
  - rewrite E. exists (2 ^ 52)%positive, (e + 1).
    assert (Hd : Zdigits2 (2 ^ 53) = 54) by reflexivity. rewrite Hd.
    replace (Z.max (54 + e - 53) (3 - 1024 - 53) - e) with 1 by lia.
    assert (Hs : shr (shr_record_of_loc (2 ^ 53) loc_Exact) e 1 =
                 (Build_shr_record (2 ^ 52) false false, e + 1)) by reflexivity.
    rewrite Hs. cbn [shr_m].
    replace (e + 1 <=? 1024 - 53) with true by (symmetry; apply Z.leb_le; lia).
    split; [reflexivity | split; [lia |]].
    replace (e + 1 - e) with 1 by lia. reflexivity.
  - rewrite (Zdigits2_eq m1 53) by (cbn; lia).
    replace (Z.max (53 + e - 53) (3 - 1024 - 53) - e) with 0 by lia.
    cbn [shr]. rewrite shr_m_record_of_loc.
    destruct m1 as [|p|p] eqn:Em; try (cbn in Hm; lia).
    replace (e <=? 1024 - 53) with true by (symmetry; apply Z.leb_le; lia).
    exists p, e. split; [reflexivity | split; [lia |]].
    rewrite Z.sub_diag. cbn. lia.
Qed.

(** Rounding a mantissa of 53 bits: no shift before rounding. *)
Lemma binary_round_aux_53 (sx : bool) q e l :
  2 ^ 52 <= q < 2 ^ 53 -> -1074 <= e <= 900 ->
  exists m e',
    binary_round_aux 53 1024 sx q e l = S754_finite sx m e' /\
    e <= e' <= e + 1 /\
    Zpos m * 2 ^ (e' - e) = round_nearest_even q l.
Proof.
  intros Hq He. unfold binary_round_aux.
  assert (H1 : shr_fexp 53 1024 q e l = (shr_record_of_loc q l, e)).
  { unfold shr_fexp, fexp, emin. rewrite (Zdigits2_eq q 53) by (cbn; lia).
    replace (Z.max (53 + e - 53) (3 - 1024 - 53) - e) with 0 by lia. reflexivity. }
  rewrite H1, shr_m_record_of_loc, loc_of_shr_record_of_loc.
  apply binary_round_finish; [| lia].
  pose proof (round_nearest_even_bounds q l). lia.
Qed.

Lemma shr_1_record_of_loc q l :
  0 < q ->
  shr_1 (shr_record_of_loc q l) =
    Build_shr_record (Z.div2 q) (Z.odd q)
                     (match l with loc_Exact => false | loc_Inexact _ => true end).
Proof.
  intros Hq. destruct q as [|[p|p|]|p]; try lia; destruct l as [|[]]; reflexivity.
Qed.

(** Rounding a mantissa of 54 bits: one shift, which leaves the last bit as
    the round bit and whether the quotient was inexact as the sticky bit. *)
Lemma binary_round_aux_54 (sx : bool) q e l :
  2 ^ 53 <= q < 2 ^ 54 -> -1074 <= e <= 900 ->
  exists m e',
    binary_round_aux 53 1024 sx q e l = S754_finite sx m e' /\
    e + 1 <= e' <= e + 2 /\
    Zpos m * 2 ^ (e' - (e + 1)) =
      round_nearest_even (Z.div2 q)
        (loc_of_shr_record
           (Build_shr_record (Z.div2 q) (Z.odd q)
              (match l with loc_Exact => false | loc_Inexact _ => true end))).
Proof.
  intros Hq He. unfold binary_round_aux.
  assert (H1 : shr_fexp 53 1024 q e l = (shr_1 (shr_record_of_loc q l), e + 1)).
  { unfold shr_fexp, fexp, emin. rewrite (Zdigits2_eq q 54) by (cbn; lia).
    replace (Z.max (54 + e - 53) (3 - 1024 - 53) - e) with 1 by lia. reflexivity. }
  rewrite H1, shr_1_record_of_loc by lia. cbn [shr_m].
  pose proof (Z.div2_odd q) as Hodd.
  set (loc := loc_of_shr_record _).
  pose proof (round_nearest_even_bounds (Z.div2 q) loc) as Hr.
  destruct (binary_round_finish sx (round_nearest_even (Z.div2 q) loc) (e + 1))
    as (m & e' & Ef & He' & Hv).
  - destruct (Z.odd q); cbn [Z.b2z] in Hodd; lia.
  - lia.
  - exists m, e'. rewrite Ef. repeat split; try lia.
Qed.

(** The location of the quotient by 100 with remainder [r]. *)
Lemma new_location_100 r :
  new_location 100 r = if r =? 0 then loc_Exact else loc_Inexact (2 * r ?= 100).
Proof. reflexivity. Qed.

(** Rounding the quotient [a * P / 100], with a granule [P] of at least 64
    per unit, never reaches the neighbouring multiples of [P] unless [a] is
    a multiple of 100. *)
Lemma round_quotient_sandwich a P q r :
  64 <= P -> a * P = 100 * q + r -> 0 <= r < 100 ->
  let m1 := round_nearest_even q (new_location 100 r) in
  (a mod 100 = 0 -> m1 = a / 100 * P) /\
  (a mod 100 <> 0 -> a / 100 * P < m1 < (a / 100 + 1) * P).
Proof.
  intros HP HN Hr m1. subst m1. rewrite new_location_100.
  pose proof (Z.div_mod a 100 ltac:(lia)) as Ha.
  pose proof (Z.mod_pos_bound a 100 ltac:(lia)) as Hrho.
  set (k := a / 100) in *. set (rho := a mod 100) in *.
  assert (HNP : 100 * (k * P) + rho * P = 100 * q + r) by (rewrite <- HN, Ha; ring).
  assert (Hlo : rho <> 0 -> P <= rho * P) by nia.
  assert (Hhi : rho * P <= 99 * P) by nia.
  set (KP := k * P) in *. set (RP := rho * P) in *.
  replace ((k + 1) * P) with (KP + P) by (unfold KP; ring).
  assert (H0 : rho = 0 -> RP = 0) by (intros E; unfold RP; rewrite E; ring).
  unfold round_nearest_even.
  destruct (Z.eqb_spec r 0) as [Er | Nr].
  - split; intros; [specialize (H0 ltac:(assumption)) |]; lia.
  - destruct (Z.compare_spec (2 * r) 100); [destruct (Z.even q) | |];
      (split; intros; [specialize (H0 ltac:(assumption)) |]; lia).
Qed.

Lemma round_half_quotient_sandwich a G q r l :
  64 <= G -> a * (2 * G) = 100 * q + r -> 0 <= r < 100 -> 0 <= q ->
  l = new_location 100 r ->
  let m1 := round_nearest_even (Z.div2 q)
              (loc_of_shr_record
                 (Build_shr_record (Z.div2 q) (Z.odd q)
                    (match l with loc_Exact => false | loc_Inexact _ => true end))) in
  (a mod 100 = 0 -> m1 = a / 100 * G) /\
  (a mod 100 <> 0 -> a / 100 * G < m1 < (a / 100 + 1) * G).
Proof.
  intros HG HN Hr Hq -> m1. subst m1. rewrite new_location_100.
  pose proof (Z.div_mod a 100 ltac:(lia)) as Ha.
  pose proof (Z.mod_pos_bound a 100 ltac:(lia)) as Hrho.
  set (k := a / 100) in *. set (rho := a mod 100) in *.
  assert (HNP : 200 * (k * G) + 2 * (rho * G) = 100 * q + r) by (rewrite <- HN, Ha; ring).
  assert (Hlo : rho <> 0 -> G <= rho * G) by nia.
  assert (Hhi : rho * G <= 99 * G) by nia.
  set (KG := k * G) in *. set (RG := rho * G) in *.
  replace ((k + 1) * G) with (KG + G) by (unfold KG; ring).
  assert (H0 : rho = 0 -> RG = 0) by (intros E; unfold RG; rewrite E; ring).
  pose proof (Z.div2_odd q) as Hodd.
  set (h := Z.div2 q) in *.
  unfold round_nearest_even, loc_of_shr_record.
  destruct (Z.eqb_spec r 0) as [Er | Nr];
    destruct (Z.odd q); cbn [Z.b2z] in Hodd; try destruct (Z.even h);
    (split; intros; [specialize (H0 ltac:(assumption)) |]; lia).
Qed.

Lemma div_eucl_div_mod a b : Z.div_eucl a b = (a / b, a mod b).
Proof. unfold Z.div, Z.modulo. now destruct (Z.div_eucl a b). Qed.

(** The integer quotient that [SFdiv] rounds: [p] is first scaled to 60
    bits, so that the quotient by 100 has 53 or 54 bits. *)
Lemma SFdiv_core_100 p :
  Zpos (digits2_pos p) <= 54 ->
  SFdiv_core_binary 53 1024 (Zpos p) 0 100 0 =
    (Zpos p * 2 ^ (60 - Zpos (digits2_pos p)) / 100,
     Zpos (digits2_pos p) - 60,
     new_location 100 (Zpos p * 2 ^ (60 - Zpos (digits2_pos p)) mod 100)).
Proof.
  intros HD. unfold SFdiv_core_binary, fexp, emin. cbn [Zdigits2].
  change (Zpos (digits2_pos 100)) with 7.
  set (D := Zpos (digits2_pos p)) in *.
  replace (Z.min (Z.max (D + 0 - (7 + 0) - 53) (3 - 1024 - 53)) (0 - 0)) with (D - 60) by lia.
  replace (0 - 0 - (D - 60)) with (60 - D) by lia.
  destruct (60 - D) as [|s|s] eqn:Es; try lia.
  rewrite Z.shiftl_mul_pow2 by lia. now rewrite div_eucl_div_mod.
Qed.

Lemma sandwich_scale (k m M t G P : Z) :
  0 < t -> m * t = M -> P = G * t ->
  (M = k * P -> m = k * G) /\
  (k * P < M < (k + 1) * P -> k * G < m < (k + 1) * G).
Proof. intros Ht <- ->. split; intros H; nia. Qed.

(** The float quotient of a positive int below [100 * 2^47] by 100 is
    [m * 2^e] with [e <= 0]; in units of [2^e] it lies strictly between the
    neighbouring integers unless the division is exact. *)
Lemma SFdiv_100_sandwich (sx : bool) p :
  Zpos p < 100 * 2 ^ 47 ->
  exists m e,
    SFdiv 53 1024 (S754_finite sx p 0) (S754_finite false 100 0) = S754_finite sx m e /\
    e <= 0 /\
    (Zpos p mod 100 = 0 -> Zpos m = Zpos p / 100 * 2 ^ (- e)) /\
    (Zpos p mod 100 <> 0 ->
       Zpos p / 100 * 2 ^ (- e) < Zpos m < (Zpos p / 100 + 1) * 2 ^ (- e)).
Proof.
  intros Ha.
  pose proof (digits2_pos_bounds p) as [Dlo Dhi].
  set (D := Zpos (digits2_pos p)) in *.
  assert (HD1 : 1 <= D) by (unfold D; lia).
  assert (HD : D <= 54).
  { destruct (Z.le_gt_cases D 54) as [? | Hgt]; [assumption | exfalso].
    assert (2 ^ 54 <= 2 ^ (D - 1)) by (apply Z.pow_le_mono_r; lia).
    change (2 ^ 54) with 18014398509481984 in *.
    change (2 ^ 47) with 140737488355328 in *. lia. }
  unfold SFdiv. rewrite SFdiv_core_100 by assumption. fold D.
  rewrite xorb_false_r.
  set (s := 60 - D). set (P := 2 ^ s).
  assert (HPD : P * 2 ^ (D - 1) = 2 ^ 59).
  { unfold P, s. rewrite <- Z.pow_add_r by lia. f_equal. lia. }
  assert (HP64 : 64 <= P).
  { change 64 with (2 ^ 6). apply Z.pow_le_mono_r; unfold s; lia. }
  assert (HPD' : 2 ^ D = 2 * 2 ^ (D - 1)).
  { replace D with (Z.succ (D - 1)) at 1 by lia. apply Z.pow_succ_r. lia. }
  assert (HN : 2 ^ 59 <= Zpos p * P < 2 ^ 60).
  { change (2 ^ 60) with (2 * 2 ^ 59). rewrite <- HPD. nia. }
  pose proof (Z.div_mod (Zpos p * P) 100 ltac:(lia)) as Hdm.
  pose proof (Z.mod_pos_bound (Zpos p * P) 100 ltac:(lia)) as Hr.
  set (q := Zpos p * P / 100) in *. set (r := (Zpos p * P) mod 100) in *.
  change (2 ^ 59) with 576460752303423488 in HN.
  change (2 ^ 60) with 1152921504606846976 in HN.
  assert (Hq : 2 ^ 52 <= q < 2 ^ 54).
  { change (2 ^ 52) with 4503599627370496. change (2 ^ 54) with 18014398509481984. lia. }
  assert (Hs : - (D - 60) = s) by (unfold s; lia).
  destruct (Z.lt_ge_cases q (2 ^ 53)) as [Hq53 | Hq54].
  - destruct (binary_round_aux_53 sx q (D - 60) (new_location 100 r)) as (m & e & E & He & Hm);
      [lia | lia |].
    exists m, e. split; [exact E | split; [lia |]].
    destruct (round_quotient_sandwich (Zpos p) P q r HP64 Hdm Hr) as [S0 S1].
    rewrite <- Hm in S0, S1.
    assert (HPG : P = 2 ^ (- e) * 2 ^ (e - (D - 60))).
    { rewrite <- Z.pow_add_r by lia. unfold P, s. f_equal. lia. }
    assert (Ht : 0 < 2 ^ (e - (D - 60))) by (apply Z.pow_pos_nonneg; lia).
    destruct (sandwich_scale (Zpos p / 100) (Zpos m) _ _ _ _ Ht eq_refl HPG) as [T0 T1].
    split; auto.
  - assert (Hs7 : 7 <= s).
    { destruct (Z.le_gt_cases 7 s) as [? | Hlt]; [assumption | exfalso].
      assert (P <= 2 ^ 6) by (apply Z.pow_le_mono_r; lia).
      change (2 ^ 6) with 64 in *. change (2 ^ 53) with 9007199254740992 in *.
      change (2 ^ 47) with 140737488355328 in *. nia. }
    set (G := 2 ^ (s - 1)).
    assert (HPG1 : P = 2 * G).
    { unfold P, G. replace s with (Z.succ (s - 1)) at 1 by lia. apply Z.pow_succ_r. lia. }
    assert (HG64 : 64 <= G).
    { change 64 with (2 ^ 6). apply Z.pow_le_mono_r; lia. }
    destruct (binary_round_aux_54 sx q (D - 60) (new_location 100 r)) as (m & e & E & He & Hm);
      [lia | lia |].
    exists m, e. split; [exact E | split; [lia |]].
    rewrite HPG1 in Hdm.
    destruct (round_half_quotient_sandwich (Zpos p) G q r _ HG64 Hdm Hr ltac:(lia) eq_refl)
      as [S0 S1].
    rewrite <- Hm in S0, S1.
    assert (HPG : G = 2 ^ (- e) * 2 ^ (e - (D - 60 + 1))).
    { rewrite <- Z.pow_add_r by lia. unfold G. f_equal. lia. }
    assert (Ht : 0 < 2 ^ (e - (D - 60 + 1))) by (apply Z.pow_pos_nonneg; lia).
    destruct (sandwich_scale (Zpos p / 100) (Zpos m) _ _ _ _ Ht eq_refl HPG) as [T0 T1].
    split; auto.
Qed.

Lemma div_between k m G : 0 < G -> k * G <= m < (k + 1) * G -> m / G = k.
Proof.
  intros HG H. symmetry. apply (Z.div_unique m G k (m - k * G)); lia.
Qed.

Lemma scaled_floor a m G :
  0 < G ->
  (a mod 100 = 0 -> m = a / 100 * G) ->
  (a mod 100 <> 0 -> a / 100 * G < m < (a / 100 + 1) * G) ->
  m / G = a / 100 /\ (- m) / G = (- a) / 100.
Proof.
  intros HG H0 H1.
  pose proof (Z.div_mod a 100 ltac:(lia)) as Ha.
  pose proof (Z.mod_pos_bound a 100 ltac:(lia)) as Hrho.
  set (k := a / 100) in *. set (rho := a mod 100) in *.
  destruct (Z.eq_dec rho 0) as [E | N].
  - specialize (H0 E). split.
    + apply div_between; lia.
    + rewrite (div_between (- k) (- m) G), (div_between (- k) (- a) 100); lia.
  - specialize (H1 N). split.
    + apply div_between; lia.
    + rewrite (div_between (- (k + 1)) (- m) G), (div_between (- (k + 1)) (- a) 100); lia.
Qed.

Lemma shiftl_nonpos a e : e <= 0 -> Z.shiftl a e = a / 2 ^ (- e).
Proof.
  intros He. rewrite <- Z.shiftr_div_pow2 by lia.
  unfold Z.shiftr. now rewrite Z.opp_involutive.
Qed.

(** [math.floor(x / 100)] and [math.ceil(x / 100)] are the exact floor and
    ceiling of the quotient for ints of magnitude below [100 * 2^47]. *)
Lemma floor_ceil_truediv_100 x :
  - (100 * 2 ^ 47) < x < 100 * 2 ^ 47 ->
  (q ← int_truediv x 100; math_floor q) = Ok (x / 100) /\
  (q ← int_truediv x 100; math_ceil q) = Ok (- ((- x) / 100)).
Proof.
  intros Hx. unfold int_truediv. change (100 =? 0) with false. cbv iota.
  destruct x as [|p|p].
  - split; reflexivity.
  - destruct (SFdiv_100_sandwich false p ltac:(lia)) as (m & e & E & He & H0 & H1).
    cbn [float_of_int]. rewrite E. cbn [mbind result_bind math_floor math_ceil cond_Zopp].
    rewrite !shiftl_nonpos by assumption.
    assert (HG : 0 < 2 ^ (- e)) by (apply Z.pow_pos_nonneg; lia).
    destruct (scaled_floor _ _ _ HG H0 H1) as [F C].
    rewrite F, C. split; reflexivity.
  - destruct (SFdiv_100_sandwich true p ltac:(lia)) as (m & e & E & He & H0 & H1).
    cbn [float_of_int]. rewrite E. cbn [mbind result_bind math_floor math_ceil cond_Zopp].
    rewrite !shiftl_nonpos by assumption.
    assert (HG : 0 < 2 ^ (- e)) by (apply Z.pow_pos_nonneg; lia).
    destruct (scaled_floor _ _ _ HG H0 H1) as [F C].
    change (- Zneg m) with (Zpos m). change (- Zneg p) with (Zpos p).
    change (Zneg m) with (- Zpos m). change (Zneg p) with (- Zpos p).
    rewrite ?Z.opp_involutive, F, C. split; reflexivity.
Qed.

Lemma truediv_100_exact x :
  - (100 * 2 ^ 47) < x < 100 * 2 ^ 47 ->
  exists q,
    int_truediv x 100 = Ok q /\
    math_floor q = Ok (x / 100) /\
    math_ceil q = Ok (- ((- x) / 100)).
Proof.
  intros Hx. destruct (floor_ceil_truediv_100 x Hx) as [F C].
  destruct (int_truediv x 100) as [q | e]; [| discriminate].
  exists q. auto.
Qed.

(** ** The block range *)

Section BlockRange.

Context {Geometry : Type}.
Implicit Types (segs : list (Feature Geometry)) (xs : list Z).

Lemma list_comp_ints (key : string) segs xs :
  Forall2 (fun s x => attributes s !! key = Some (VInt x)) segs xs ->
  list_comp (fun s => getitem (attributes s) key) segs = Ok (map VInt xs).
Proof.
  induction 1 as [|s x segs xs Hs _ IH]; [reflexivity |].
  cbn [list_comp map]. rewrite (getitem_Some _ _ _ Hs), IH. reflexivity.
Qed.

Lemma py_min_from_ints c xs :
  exists lo,
    py_min_from (VInt c) (map VInt xs) = Ok (VInt lo) /\
    In lo (c :: xs) /\ forall x, In x (c :: xs) -> lo <= x.
Proof.
  revert c. induction xs as [|y xs IH]; intros c.
  - exists c. cbn. intuition lia.
  - cbn [map py_min_from py_lt mbind result_bind].
    destruct (Z.ltb_spec y c) as [Hlt | Hge].
    + destruct (IH y) as (lo & E & Hin & Hle). exists lo. split; [exact E |].
      split.
      * right. exact Hin.
      * intros x [<- | Hx]; [| auto].
        specialize (Hle y (or_introl eq_refl)). lia.
    + destruct (IH c) as (lo & E & Hin & Hle). exists lo. split; [exact E |].
      split.
      * destruct Hin as [<- | Hin]; [now left | right; now right].
      * intros x [<- | [<- | Hx]].
        -- apply Hle. now left.
        -- specialize (Hle c (or_introl eq_refl)). lia.
        -- apply Hle. now right.
Qed.

Lemma py_max_from_ints c xs :
  exists hi,
    py_max_from (VInt c) (map VInt xs) = Ok (VInt hi) /\
    In hi (c :: xs) /\ forall x, In x (c :: xs) -> x <= hi.
Proof.
  revert c. induction xs as [|y xs IH]; intros c.
  - exists c. cbn. intuition lia.
  - cbn [map py_max_from py_gt py_lt mbind result_bind].
    destruct (Z.ltb_spec c y) as [Hlt | Hge].
    + destruct (IH y) as (hi & E & Hin & Hle). exists hi. split; [exact E |].
      split.
      * right. exact Hin.
      * intros x [<- | Hx]; [| auto].
        specialize (Hle y (or_introl eq_refl)). lia.
    + destruct (IH c) as (hi & E & Hin & Hle). exists hi. split; [exact E |].
      split.
      * destruct Hin as [<- | Hin]; [now left | right; now right].
      * intros x [<- | [<- | Hx]].
        -- apply Hle. now left.
        -- specialize (Hle c (or_introl eq_refl)). lia.
        -- apply Hle. now right.
Qed.

(** C3, amended. For a non-empty list of segments whose LEFT_BLOCK_FROM
    and LEFT_BLOCK_TO are ints of magnitude below [100 * 2^47],
    [block_range] returns [(start, stop)] where [start] is the multiple
    of 100 with [start <= lo < start + 100] for the minimum [lo] of
    LEFT_BLOCK_FROM, and [stop] is the multiple of 100 with
    [hi <= stop < hi + 100] for the maximum [hi] of LEFT_BLOCK_TO. *)
Theorem block_range_rounds_to_hundreds segs froms tos :
  segs <> [] ->
  Forall2 (fun s x => attributes s !! "LEFT_BLOCK_FROM" = Some (VInt x)) segs froms ->
  Forall2 (fun s x => attributes s !! "LEFT_BLOCK_TO" = Some (VInt x)) segs tos ->
  Forall (fun x => - (100 * 2 ^ 47) < x < 100 * 2 ^ 47) froms ->
  Forall (fun x => - (100 * 2 ^ 47) < x < 100 * 2 ^ 47) tos ->
  exists lo hi start stop,
    block_range segs = Ok (start, stop) /\
    In lo froms /\ (forall x, In x froms -> lo <= x) /\
    In hi tos /\ (forall x, In x tos -> x <= hi) /\
    start <= lo < start + 100 /\ (100 | start) /\
    hi <= stop < hi + 100 /\ (100 | stop).
Proof.
  intros Hne Hf Ht Bf Bt. unfold block_range.
  rewrite (list_comp_ints _ _ _ Hf). cbn [mbind result_bind].
  destruct froms as [|f0 froms]; [inversion Hf; subst; contradiction |].
  destruct tos as [|t0 tos]; [inversion Ht; subst; contradiction |].
  cbn [map py_min].
  destruct (py_min_from_ints f0 froms) as (lo & Emin & Hlo & Hle). rewrite Emin.
  cbn [mbind result_bind].
  rewrite (list_comp_ints _ _ _ Ht). cbn [mbind result_bind map py_max].
  destruct (py_max_from_ints t0 tos) as (hi & Emax & Hhi & Hge). rewrite Emax.
  cbn [mbind result_bind py_truediv].
  assert (Blo : - (100 * 2 ^ 47) < lo < 100 * 2 ^ 47).
  { rewrite Forall_forall in Bf. apply Bf, list_elem_of_In, Hlo. }
  assert (Bhi : - (100 * 2 ^ 47) < hi < 100 * 2 ^ 47).
  { rewrite Forall_forall in Bt. apply Bt, list_elem_of_In, Hhi. }
  destruct (truediv_100_exact lo Blo) as (q1 & E1 & F1 & _).
  destruct (truediv_100_exact hi Bhi) as (q2 & E2 & _ & C2).
  rewrite E1. cbn [mbind result_bind]. rewrite F1. cbn [mbind result_bind].
  rewrite E2. cbn [mbind result_bind]. rewrite C2. cbn [mbind result_bind].
  exists lo, hi, (lo / 100 * 100), (- (- hi / 100) * 100).
  pose proof (Z.div_mod lo 100 ltac:(lia)) as D1.
  pose proof (Z.mod_pos_bound lo 100 ltac:(lia)) as M1.
  pose proof (Z.div_mod (- hi) 100 ltac:(lia)) as D2.
  pose proof (Z.mod_pos_bound (- hi) 100 ltac:(lia)) as M2.
  repeat split; auto; try lia.
  - exists (lo / 100). reflexivity.
  - exists (- (- hi / 100)). reflexivity.
Qed.

End BlockRange.

(** ** Location synthesis *)

Section ConstructLocation.

Context {Geometry : Type}.
Implicit Types (wo : WorkOrder Geometry) (tr : list (event Geometry))
  (matched : list (Feature Geometry)).

Lemma construct_location_unfold wo tr l :
  sign_segments wo = Some l ->
  construct_location (wo, tr) =
    match
      (street_names ← list_comp street_name l;
       most_common ← most_common_name street_names;
       subset ← segments_named most_common l;
       '(blk_start, blk_end) ← block_range subset;
       sid ← match subset with
             | [] => Raise IndexError
             | s :: _ => getitem (attributes s) "SEGMENT_ID"
             end;
       Ok (location_name (length subset) blk_start blk_end most_common, sid))
    with
    | Ok (name, sid) =>
        (Ok tt,
         (set_attributes
            (<["LOCATION_STREET_SEGMENT_ID_REFERENCE" := sid]>
               (<["GENERATED_LOCATION_FROM_API" := VStr name]> (wo_attributes wo))) wo,
          tr))
    | Raise e => (Raise e, (wo, tr))
    end.
Proof.
  intros Hl.
  cbv [construct_location mbind M_bind get_self getattr lift mret M_ret
       modify_self result_bind fst snd].
  rewrite Hl.
  destruct (list_comp street_name l) as [names | e]; [| reflexivity].
  destruct (most_common_name names) as [name | e]; [| reflexivity].
  destruct (segments_named name l) as [subset | e]; [| reflexivity].
  destruct (block_range subset) as [[blk_start blk_end] | e]; [| reflexivity].
  destruct subset as [|s subset]; [reflexivity |].
  destruct (getitem (attributes s) "SEGMENT_ID") as [sid | e]; reflexivity.
Qed.

Lemma construct_location_unset wo tr :
  sign_segments wo = None ->
  construct_location (wo, tr) = (Raise (AttributeError "sign_segments"), (wo, tr)).
Proof.
  intros Hl.
  cbv [construct_location mbind M_bind get_self getattr lift mret M_ret
       modify_self result_bind fst snd].
  now rewrite Hl.
Qed.

Lemma street_names_matched matched names :
  Forall2 (fun s n => attributes s !! "FULL_STREET_NAME" = Some n) matched names ->
  list_comp street_name (map Some matched) = Ok names.
Proof.
  induction 1 as [|s n matched names Hs _ IH]; [reflexivity |].
  cbn [map list_comp street_name]. rewrite (getitem_Some _ _ _ Hs), IH. reflexivity.
Qed.

Lemma segments_named_matched name matched names :
  Forall2 (fun s n => attributes s !! "FULL_STREET_NAME" = Some n) matched names ->
  segments_named name (map Some matched) =
    Ok (filter (fun s => attributes s !! "FULL_STREET_NAME" = Some name) matched).
Proof.
  induction 1 as [|s n matched names Hs _ IH]; [reflexivity |].
  cbn [map segments_named]. rewrite (getitem_Some _ _ _ Hs), IH.
  cbn [mbind result_bind]. f_equal.
  destruct (decide (n = name)) as [-> | Hne].
  - rewrite bool_decide_eq_true_2 by reflexivity. now rewrite filter_cons_True.
  - rewrite bool_decide_eq_false_2 by assumption.
    rewrite filter_cons_False; [reflexivity | congruence].
Qed.

(** C4. When the matched segments (none of them None) carry the street
    names [names] and [name] is the most common of them, let [subset] be
    the matched segments named [name], [(start, stop)] its block range and
    [sid] the SEGMENT_ID of its first element. Then [construct_location]
    stores the location "start BLK name" when [subset] has exactly one
    segment and "start-stop name" otherwise, and stores [sid] as the
    reference street-segment identifier. *)
Theorem construct_location_format wo tr matched names name first rest start stop sid :
  sign_segments wo = Some (map Some matched) ->
  matched <> [] ->
  Forall2 (fun s n => attributes s !! "FULL_STREET_NAME" = Some n) matched names ->
  most_common_name names = Ok name ->
  filter (fun s => attributes s !! "FULL_STREET_NAME" = Some name) matched = first :: rest ->
  block_range (first :: rest) = Ok (start, stop) ->
  attributes first !! "SEGMENT_ID" = Some sid ->
  let location :=
    match rest with
    | [] => str_of_int start +:+ " BLK " +:+ py_str name
    | _ :: _ => str_of_int start +:+ "-" +:+ str_of_int stop +:+ " " +:+ py_str name
    end in
  construct_location (wo, tr) =
    (Ok tt,
     (set_attributes
        (<["LOCATION_STREET_SEGMENT_ID_REFERENCE" := sid]>
           (<["GENERATED_LOCATION_FROM_API" := VStr location]> (wo_attributes wo))) wo,
      tr)).
Proof.
  intros Hl _ Hnames Hname Hsub Hrange Hsid location.
  rewrite (construct_location_unfold _ _ _ Hl).
  rewrite (street_names_matched _ _ Hnames). cbn [mbind result_bind].
  rewrite Hname. cbn [mbind result_bind].
  rewrite (segments_named_matched _ _ _ Hnames), Hsub. cbn [mbind result_bind].
  rewrite Hrange. cbn [mbind result_bind].
  rewrite (getitem_Some _ _ _ Hsid). cbn [mbind result_bind].
  unfold location, location_name. destruct rest; reflexivity.
Qed.

(** What [construct_location] may change: nothing when it raises, and
    otherwise the two location attributes. *)
Lemma construct_location_outcome wo tr :
  (exists e, construct_location (wo, tr) = (Raise e, (wo, tr))) \/
  (exists name sid,
      construct_location (wo, tr) =
        (Ok tt,
         (set_attributes
            (<["LOCATION_STREET_SEGMENT_ID_REFERENCE" := sid]>
               (<["GENERATED_LOCATION_FROM_API" := VStr name]> (wo_attributes wo))) wo,
          tr))).
Proof.
  destruct (sign_segments wo) as [l|] eqn:Hl.
  - rewrite (construct_location_unfold _ _ _ Hl).
    match goal with |- context [match ?r with Ok _ => _ | Raise _ => _ end] =>
      destruct r as [[name sid] | e] end; eauto.
  - rewrite (construct_location_unset _ _ Hl). eauto.
Qed.

(** C10. On a work order whose matched-segment list is non-empty and has
    no None entry, [construct_location] leaves the geometry, the signs,
    the street segments, the matched segments and the trace as they were,
    and every attribute other than GENERATED_LOCATION_FROM_API and
    LOCATION_STREET_SEGMENT_ID_REFERENCE keeps its value. *)
Theorem construct_location_frame wo tr matched :
  sign_segments wo = Some (map Some matched) ->
  matched <> [] ->
  forall r wo' tr',
    construct_location (wo, tr) = (r, (wo', tr')) ->
    wo_geometry wo' = wo_geometry wo /\
    layers wo' = layers wo /\
    signs wo' = signs wo /\
    street_segments wo' = street_segments wo /\
    sign_segments wo' = sign_segments wo /\
    tr' = tr /\
    forall k : string,
      k <> "GENERATED_LOCATION_FROM_API" ->
      k <> "LOCATION_STREET_SEGMENT_ID_REFERENCE" ->
      wo_attributes wo' !! k = wo_attributes wo !! k.
Proof.
  intros _ _ r wo' tr' E.
  destruct (construct_location_outcome wo tr) as [(e & E') | (name & sid & E')];
    rewrite E' in E; injection E as <- <- <-.
  - repeat split; reflexivity.
  - repeat split; try reflexivity.
    intros k N1 N2. cbn [set_attributes wo_attributes].
    rewrite !lookup_insert_ne by congruence. reflexivity.
Qed.

End ConstructLocation.

(** ** Unmatched signs *)

Section Unmatched.

Context {Geometry : Type}.
Variable shape_distance : Geometry -> Geometry -> spec_float.
Implicit Types (wo : WorkOrder Geometry) (tr : list (event Geometry)).

Lemma identify_nearest_sign_segments_eq wo tr sgns :
  signs wo = Some sgns ->
  (sgns = [] \/ exists segs, street_segments wo = Some segs) ->
  identify_nearest_sign_segments shape_distance (wo, tr) =
    (Ok tt,
     (set_sign_segments
        (map (fun sign =>
                fst (find_nearest_feature shape_distance sign
                       (default [] (street_segments wo)))) sgns) wo,
      tr)).
Proof.
  intros Hs Hsegs.
  cbv [identify_nearest_sign_segments mbind M_bind get_self getattr lift mret M_ret
       modify_self result_bind fst snd].
  cbn [set_sign_segments signs street_segments]. rewrite Hs.
  destruct sgns as [|s sgns]; [reflexivity |].
  destruct Hsegs as [? | (segs & Hsegs)]; [discriminate |].
  rewrite Hsegs. reflexivity.
Qed.

(** C5, amended. [construct_location] has no guard of its own for
    unmatched signs. After the matching step on a work order without
    signs, it raises the ValueError of [max()] on an empty sequence;
    after the matching step on a work order with signs and an empty list
    of street segments, where every match is None, it raises the
    AttributeError of the attribute access on None. In both cases no
    location is stored: the attributes are unchanged. *)
Theorem construct_location_unmatched wo tr sgns :
  signs wo = Some sgns ->
  sgns = [] \/ street_segments wo = Some [] ->
  (_ ← identify_nearest_sign_segments shape_distance; construct_location) (wo, tr) =
    (Raise (match sgns with
            | [] => ValueError "max() arg is an empty sequence"
            | _ :: _ => AttributeError "attributes"
            end),
     (set_sign_segments (map (fun _ => None) sgns) wo, tr)).
Proof.
  intros Hs Hcase.
  change ((_ ← identify_nearest_sign_segments shape_distance; construct_location) (wo, tr))
    with (match identify_nearest_sign_segments shape_distance (wo, tr) with
          | (Ok a, st') => construct_location st'
          | (Raise e, st') => (Raise e, st')
          end).
  rewrite (identify_nearest_sign_segments_eq wo tr sgns Hs).
  2:{ destruct Hcase as [? | ?]; [now left | right; eauto]. }
  assert (Hmap : map (fun sign =>
                        fst (find_nearest_feature shape_distance sign
                               (default [] (street_segments wo)))) sgns
                 = map (fun _ => None) sgns).
  { destruct Hcase as [-> | ->]; reflexivity. }
  rewrite Hmap.
  rewrite (construct_location_unfold _ _ (map (fun _ => None) sgns)) by reflexivity.
  destruct sgns; reflexivity.
Qed.

End Unmatched.

(** ** The loop of main *)

Section MainLoop.

Context {Geometry : Type}.
Variable shape_distance : Geometry -> Geometry -> spec_float.
Variable is_valid : Geometry -> bool.
Variable geometry_repr : Geometry -> string.
Variable centroid : Geometry -> Geometry.
Variable knack_sync : WorkOrder Geometry -> result unit * list (event Geometry).
Implicit Types (wo : WorkOrder Geometry) (tr : list (event Geometry)).

Let process :=
  process_work_order shape_distance is_valid geometry_repr centroid knack_sync.

Lemma M_bind_Ok {A B : Type} (m : M Geometry A) (k : A -> M Geometry B) st a st' :
  m st = (Ok a, st') -> (m ≫= k) st = k a st'.
Proof. intros E. unfold mbind, M_bind. now rewrite E. Qed.

Lemma M_bind_Raise {A B : Type} (m : M Geometry A) (k : A -> M Geometry B) st e st' :
  m st = (Raise e, st') -> (m ≫= k) st = (Raise e, st').
Proof. intros E. unfold mbind, M_bind. now rewrite E. Qed.

Lemma M_bind_get_self {B : Type} (k : WorkOrder Geometry -> M Geometry B) st :
  (get_self ≫= k) st = k (fst st) st.
Proof. reflexivity. Qed.

Lemma M_bind_ret {A B : Type} (a : A) (k : A -> M Geometry B) st :
  ((mret a : M Geometry A) ≫= k) st = k a st.
Proof. reflexivity. Qed.

Lemma get_signs_eq wo tr :
  get_signs (wo, tr) =
    (Ok tt,
     (set_signs (signs_layer (layers wo) (wo_geometry wo)) wo,
      tr ++ [Query SignsLayer (wo_geometry wo)])).
Proof. reflexivity. Qed.

Lemma identify_eng_area_eq wo tr oid :
  wo_attributes wo !! "OBJECTID" = Some oid ->
  is_valid (centroid (wo_geometry wo)) = true ->
  (forall area others,
      eng_areas_layer (layers wo) (centroid (wo_geometry wo)) = area :: others ->
      is_Some (attributes area !! "ATD_ENGINEER_AREAS")) ->
  exists v,
    identify_eng_area is_valid geometry_repr centroid (wo, tr) =
      (Ok tt,
       (set_attributes (<["WORK_AREA" := v]> (wo_attributes wo)) wo,
        tr ++ Query EngAreasLayer (centroid (wo_geometry wo))
           :: match eng_areas_layer (layers wo) (centroid (wo_geometry wo)) with
              | [] => [Log Warning ("No work area found for " +:+ py_str oid)]
              | _ :: _ => []
              end)).
Proof.
  intros Hoid Hval Harea.
  cbv [identify_eng_area create_geom_filter mbind M_bind get_self getattr lift mret
       M_ret modify_self emit result_bind fst snd].
  rewrite Hval.
  destruct (eng_areas_layer (layers wo) (centroid (wo_geometry wo))) as [|area others].
  - rewrite (getitem_Some _ _ _ Hoid). exists VNone.
    rewrite <- app_assoc. reflexivity.
  - destruct (Harea area others eq_refl) as [v Hv].
    rewrite (getitem_Some _ _ _ Hv). exists v. reflexivity.
Qed.

Lemma identify_street_segments_empty wo tr oid :
  wo_attributes wo !! "OBJECTID" = Some oid ->
  street_segments_layer (layers wo) (wo_geometry wo) = [] ->
  identify_street_segments (wo, tr) =
    (Raise (ValueError
              ("No street segments found at work order location: " +:+ py_str oid)),
     (set_street_segments [] wo, tr ++ [Query StreetSegmentsLayer (wo_geometry wo)])).
Proof.
  intros Hoid Hseg.
  cbv [identify_street_segments mbind M_bind get_self getattr lift mret
       M_ret modify_self emit result_bind fst snd].
  rewrite Hseg, (getitem_Some _ _ _ Hoid). reflexivity.
Qed.

Lemma process_work_order_no_signs wo tr oid :
  signs_layer (layers wo) (wo_geometry wo) = [] ->
  wo_attributes wo !! "OBJECTID" = Some oid ->
  process (wo, tr) =
    (Ok tt,
     (set_signs [] wo,
      tr ++ [Query SignsLayer (wo_geometry wo);
             Log Warning ("Work order has no intersecting sign points: " +:+ py_str oid)])).
Proof.
  intros Hs Hoid. unfold process, process_work_order.
  rewrite (M_bind_Ok _ _ _ _ _ (get_signs_eq wo tr)). rewrite Hs.
  cbv [mbind M_bind get_self getattr lift mret M_ret emit result_bind fst snd].
  cbn [set_signs signs wo_attributes].
  rewrite (getitem_Some _ _ _ Hoid). rewrite <- app_assoc. reflexivity.
Qed.

(** C8. When the signs layer returns no feature for a work order (which
    has an OBJECTID), processing it raises nothing: the pass of the loop
    ends normally, having done nothing but the query and a logged warning
    naming the work order, so that no enrichment step and no write step
    runs for it and the work order keeps its attributes. The loop then
    goes on with the work orders that follow, and a batch of this work
    order alone ends without error. *)
Theorem main_loop_skips_work_order_without_signs wo rest tr oid :
  signs_layer (layers wo) (wo_geometry wo) = [] ->
  wo_attributes wo !! "OBJECTID" = Some oid ->
  let skipped :=
    tr ++ [Query SignsLayer (wo_geometry wo);
           Log Warning ("Work order has no intersecting sign points: " +:+ py_str oid)] in
  process_work_order shape_distance is_valid geometry_repr centroid knack_sync (wo, tr) =
    (Ok tt, (set_signs [] wo, skipped)) /\
  main_loop shape_distance is_valid geometry_repr centroid knack_sync [wo] tr =
    (Ok tt, skipped) /\
  main_loop shape_distance is_valid geometry_repr centroid knack_sync (wo :: rest) tr =
    main_loop shape_distance is_valid geometry_repr centroid knack_sync rest skipped.
Proof.
  intros Hs Hoid skipped.
  pose proof (process_work_order_no_signs wo tr oid Hs Hoid) as Hskip.
  split; [exact Hskip | split].
  - cbn [main_loop]. fold process. now rewrite Hskip.
  - cbn [main_loop]. fold process. now rewrite Hskip.
Qed.

Lemma process_work_order_no_street_segments wo tr oid :
  signs_layer (layers wo) (wo_geometry wo) <> [] ->
  wo_attributes wo !! "OBJECTID" = Some oid ->
  is_valid (centroid (wo_geometry wo)) = true ->
  (forall area others,
      eng_areas_layer (layers wo) (centroid (wo_geometry wo)) = area :: others ->
      is_Some (attributes area !! "ATD_ENGINEER_AREAS")) ->
  street_segments_layer (layers wo) (wo_geometry wo) = [] ->
  exists wo',
    process (wo, tr) =
      (Raise (ValueError
                ("No street segments found at work order location: " +:+ py_str oid)),
       (wo',
        tr ++ [Query SignsLayer (wo_geometry wo);
               Query EngAreasLayer (centroid (wo_geometry wo))]
           ++ match eng_areas_layer (layers wo) (centroid (wo_geometry wo)) with
              | [] => [Log Warning ("No work area found for " +:+ py_str oid)]
              | _ :: _ => []
              end
           ++ [Query StreetSegmentsLayer (wo_geometry wo)])).
Proof.
  intros Hs Hoid Hval Harea Hseg. unfold process, process_work_order.
  rewrite (M_bind_Ok _ _ _ _ _ (get_signs_eq wo tr)).
  destruct (signs_layer (layers wo) (wo_geometry wo)) as [|s sgns]; [contradiction |].
  set (wo1 := set_signs (s :: sgns) wo).
  rewrite M_bind_get_self. cbn [fst signs wo1 set_signs getattr].
  rewrite M_bind_ret.
  destruct (identify_eng_area_eq wo1 (tr ++ [Query SignsLayer (wo_geometry wo)]) oid
              Hoid Hval Harea) as (v & Earea).
  rewrite (M_bind_Ok _ _ _ _ _ Earea).
  set (wo2 := set_attributes _ wo1).
  assert (Hoid2 : wo_attributes wo2 !! "OBJECTID" = Some oid).
  { cbn. rewrite lookup_insert_ne by discriminate. exact Hoid. }
  rewrite (M_bind_Raise _ _ _ _ _
             (identify_street_segments_empty wo2 _ oid Hoid2 Hseg)).
  eexists. f_equal. f_equal. cbn [wo_geometry wo1 set_signs layers].
  rewrite <- !app_assoc. reflexivity.
Qed.

(** C7, amended. When the street-segments layer returns no feature for a
    work order that has signs (and an OBJECTID, a valid centroid and a
    well-formed engineer area), the step raises a ValueError whose
    message ends with the work order's OBJECTID. Nothing in the loop
    catches it: the loop ends with that error whatever work orders
    follow, and the trace holds the queries (and the warning) of this
    work order only. *)
Theorem main_loop_stops_without_street_segments wo tr oid :
  signs_layer (layers wo) (wo_geometry wo) <> [] ->
  wo_attributes wo !! "OBJECTID" = Some oid ->
  is_valid (centroid (wo_geometry wo)) = true ->
  (forall area others,
      eng_areas_layer (layers wo) (centroid (wo_geometry wo)) = area :: others ->
      is_Some (attributes area !! "ATD_ENGINEER_AREAS")) ->
  street_segments_layer (layers wo) (wo_geometry wo) = [] ->
  forall rest,
    main_loop shape_distance is_valid geometry_repr centroid knack_sync (wo :: rest) tr =
      (Raise (ValueError
                ("No street segments found at work order location: " +:+ py_str oid)),
       tr ++ [Query SignsLayer (wo_geometry wo);
              Query EngAreasLayer (centroid (wo_geometry wo))]
          ++ match eng_areas_layer (layers wo) (centroid (wo_geometry wo)) with
             | [] => [Log Warning ("No work area found for " +:+ py_str oid)]
             | _ :: _ => []
             end
          ++ [Query StreetSegmentsLayer (wo_geometry wo)]).
Proof.
  intros Hs Hoid Hval Harea Hseg rest. cbn [main_loop]. fold process.
  destruct (process_work_order_no_street_segments wo tr oid Hs Hoid Hval Harea Hseg)
    as (wo' & ->).
  reflexivity.
Qed.

End MainLoop.

(** * The properties on the sample data *)

Import Samples.

Example find_nearest_feature_tie :
  find_nearest_feature line_distance (sign_at 15) [main_1200; main_1250; oak_300]
  = (Some main_1200, float_of_int 5).
Proof. reflexivity. Qed.

Example most_common_name_tie :
  most_common_name [VStr "Oak St"; VStr "Main St"; VStr "Main St"; VStr "Oak St"]
  = Ok (VStr "Oak St").
Proof. reflexivity. Qed.

Example block_range_single : block_range [main_1200] = Ok (1200, 1300).
Proof. vm_compute. reflexivity. Qed.

Example block_range_elm : block_range [elm_500; elm_600] = Ok (500, 700).
Proof. vm_compute. reflexivity. Qed.

Example engineer_note_install :
  construct_engineer_note install_sign
  = Ok ("Action: INSTALL" +:+ nl +:+ "Speed limit: 25" +:+ nl +:+ "Size: 24x30" +:+ nl
        +:+ "Note: near school" +:+ nl).
Proof. vm_compute. reflexivity. Qed.

Example engineer_note_remove :
  construct_engineer_note remove_sign
  = Ok ("Action: REMOVE" +:+ nl +:+ "Speed Limit: 30" +:+ nl).
Proof. vm_compute. reflexivity. Qed.

Example engineer_note_relocate :
  construct_engineer_note relocate_sign
  = Raise (ValueError "Unknown INSTRUCTIONS value for sign feature: RELOCATE").
Proof. vm_compute. reflexivity. Qed.

Example engineer_note_remove_no_future :
  construct_engineer_note remove_sign_no_future = Raise (KeyError "FUTURE_SPEED_LIMIT").
Proof. vm_compute. reflexivity. Qed.

Example construct_location_main_st :
  wo_attributes (fst (snd (construct_location (matched_work_order, []))))
    !! "GENERATED_LOCATION_FROM_API" = Some (VStr "1200-1300 Main St").
Proof. vm_compute. reflexivity. Qed.

(** The nearest street segment of the sign at 15: the segments at 10 and 20
    are both at distance 5, the first is returned. *)
Lemma find_nearest_feature_correct_witness :
  [main_1200; main_1250; oak_300] <> [] /\
  (forall c, In c [main_1200; main_1250; oak_300] ->
             SFltb (line_distance (geometry (sign_at 15)) (geometry c))
                   (S754_infinity false) = true) /\
  exists (i : nat) nearest,
    find_nearest_feature line_distance (sign_at 15) [main_1200; main_1250; oak_300]
      = (Some nearest, line_distance (geometry (sign_at 15)) (geometry nearest)) /\
    [main_1200; main_1250; oak_300] !! i = Some nearest /\
    (forall c, In c [main_1200; main_1250; oak_300] ->
               SFleb (line_distance (geometry (sign_at 15)) (geometry nearest))
                     (line_distance (geometry (sign_at 15)) (geometry c)) = true) /\
    (forall (j : nat) c, (j < i)%nat -> [main_1200; main_1250; oak_300] !! j = Some c ->
               SFltb (line_distance (geometry (sign_at 15)) (geometry nearest))
                     (line_distance (geometry (sign_at 15)) (geometry c)) = true).
Proof.
  assert (H1 : [main_1200; main_1250; oak_300] <> []) by discriminate.
  assert (H2 : forall c, In c [main_1200; main_1250; oak_300] ->
                         SFltb (line_distance (geometry (sign_at 15)) (geometry c))
                               (S754_infinity false) = true).
  { intros c [<- | [<- | [<- | []]]]; reflexivity. }
  split; [exact H1 | split; [exact H2 |]].
  exact (proj2 (find_nearest_feature_correct line_distance (sign_at 15) _) H1 H2).
Defined.

Lemma most_common_name_first_maximal_witness :
  let names := [VStr "Oak St"; VStr "Main St"; VStr "Main St"; VStr "Oak St"] in
  names <> [] /\
  exists name pre post,
    most_common_name names = Ok name /\
    names = pre ++ name :: post /\
    ~ In name pre /\
    (forall other, (count names other <= count names name)%nat) /\
    (forall other, In other pre -> (count names other < count names name)%nat).
Proof.
  intros names.
  assert (H : names <> []) by discriminate.
  split; [exact H |]. exact (most_common_name_first_maximal names H).
Defined.

(** The single segment from 1210 to 1240 has the block range (1200, 1300). *)
Lemma block_range_rounds_to_hundreds_witness :
  [main_1200] <> [] /\
  Forall2 (fun s x => attributes s !! "LEFT_BLOCK_FROM" = Some (VInt x)) [main_1200] [1210] /\
  Forall2 (fun s x => attributes s !! "LEFT_BLOCK_TO" = Some (VInt x)) [main_1200] [1240] /\
  Forall (fun x => - (100 * 2 ^ 47) < x < 100 * 2 ^ 47) [1210] /\
  Forall (fun x => - (100 * 2 ^ 47) < x < 100 * 2 ^ 47) [1240] /\
  exists lo hi start stop,
    block_range [main_1200] = Ok (start, stop) /\
    In lo [1210] /\ (forall x, In x [1210] -> lo <= x) /\
    In hi [1240] /\ (forall x, In x [1240] -> x <= hi) /\
    start <= lo < start + 100 /\ (100 | start) /\
    hi <= stop < hi + 100 /\ (100 | stop).
Proof.
  assert (H1 : [main_1200] <> []) by discriminate.
  assert (H2 : Forall2 (fun s x => attributes s !! "LEFT_BLOCK_FROM" = Some (VInt x))
                       [main_1200] [1210]) by (repeat constructor).
  assert (H3 : Forall2 (fun s x => attributes s !! "LEFT_BLOCK_TO" = Some (VInt x))
                       [main_1200] [1240]) by (repeat constructor).
  assert (H4 : Forall (fun x => - (100 * 2 ^ 47) < x < 100 * 2 ^ 47) [1210])
    by (repeat constructor).
  assert (H5 : Forall (fun x => - (100 * 2 ^ 47) < x < 100 * 2 ^ 47) [1240])
    by (repeat constructor).
  repeat (split; [assumption |]).
  exact (block_range_rounds_to_hundreds [main_1200] [1210] [1240] H1 H2 H3 H4 H5).
Defined.

(** C3 as stated fails on ints beyond the precision of a float: the
    quotient 99999999999999999 / 100 rounds to the float 1e15, so the
    start of the range is above the smallest block number. *)
Lemma block_range_float_counterexample :
  attributes huge_block !! "LEFT_BLOCK_FROM" = Some (VInt 99999999999999999) /\
  attributes huge_block !! "LEFT_BLOCK_TO" = Some (VInt 99999999999999999) /\
  block_range [huge_block] = Ok (100000000000000000, 100000000000000000) /\
  ~ (100000000000000000 <= 99999999999999999).
Proof.
  split; [reflexivity | split; [reflexivity | split]].
  - vm_compute. reflexivity.
  - intros H. vm_compute in H. apply H. reflexivity.
Qed.

(** Signs matched to Main St, Oak St and Main St: the location is the block
    range of the two Main St segments. *)
Lemma construct_location_format_witness :
  let matched := [main_1200; oak_300; main_1250] in
  let names := [VStr "Main St"; VStr "Oak St"; VStr "Main St"] in
  sign_segments matched_work_order = Some (map Some matched) /\
  matched <> [] /\
  Forall2 (fun s n => attributes s !! "FULL_STREET_NAME" = Some n) matched names /\
  most_common_name names = Ok (VStr "Main St") /\
  filter (fun s => attributes s !! "FULL_STREET_NAME" = Some (VStr "Main St")) matched
    = [main_1200; main_1250] /\
  block_range [main_1200; main_1250] = Ok (1200, 1300) /\
  attributes main_1200 !! "SEGMENT_ID" = Some (VInt 501) /\
  construct_location (matched_work_order, []) =
    (Ok tt,
     (set_attributes
        (<["LOCATION_STREET_SEGMENT_ID_REFERENCE" := VInt 501]>
           (<["GENERATED_LOCATION_FROM_API" := VStr "1200-1300 Main St"]>
              (wo_attributes matched_work_order))) matched_work_order,
      [])).
Proof.
  intros matched names.
  assert (H1 : sign_segments matched_work_order = Some (map Some matched)) by reflexivity.
  assert (H2 : matched <> []) by discriminate.
  assert (H3 : Forall2 (fun s n => attributes s !! "FULL_STREET_NAME" = Some n) matched names)
    by (repeat constructor).
  assert (H4 : most_common_name names = Ok (VStr "Main St")) by reflexivity.
  assert (H5 : filter (fun s => attributes s !! "FULL_STREET_NAME" = Some (VStr "Main St"))
                      matched = [main_1200; main_1250]) by (vm_compute; reflexivity).
  assert (H6 : block_range [main_1200; main_1250] = Ok (1200, 1300))
    by (vm_compute; reflexivity).
  assert (H7 : attributes main_1200 !! "SEGMENT_ID" = Some (VInt 501)) by reflexivity.
  repeat (split; [assumption |]).
  exact (construct_location_format matched_work_order [] matched names (VStr "Main St")
           main_1200 [main_1250] 1200 1300 (VInt 501) H1 H2 H3 H4 H5 H6 H7).
Defined.

Lemma construct_location_frame_witness :
  let matched := [main_1200; oak_300; main_1250] in
  sign_segments matched_work_order = Some (map Some matched) /\
  matched <> [] /\
  forall r wo' tr',
    construct_location (matched_work_order, []) = (r, (wo', tr')) ->
    wo_geometry wo' = wo_geometry matched_work_order /\
    layers wo' = layers matched_work_order /\
    signs wo' = signs matched_work_order /\
    street_segments wo' = street_segments matched_work_order /\
    sign_segments wo' = sign_segments matched_work_order /\
    tr' = [] /\
    forall k : string,
      k <> "GENERATED_LOCATION_FROM_API" ->
      k <> "LOCATION_STREET_SEGMENT_ID_REFERENCE" ->
      wo_attributes wo' !! k = wo_attributes matched_work_order !! k.
Proof.
  intros matched.
  assert (H1 : sign_segments matched_work_order = Some (map Some matched)) by reflexivity.
  assert (H2 : matched <> []) by discriminate.
  split; [exact H1 | split; [exact H2 |]].
  exact (construct_location_frame matched_work_order [] matched H1 H2).
Defined.

(** The sign of work order 2 has no street segment to match. *)
Lemma construct_location_unmatched_witness :
  signs unmatched_work_order = Some [sign_at 40] /\
  ([sign_at 40] = [] \/ street_segments unmatched_work_order = Some []) /\
  (_ ← identify_nearest_sign_segments line_distance; construct_location)
    (unmatched_work_order, []) =
    (Raise (AttributeError "attributes"),
     (set_sign_segments [None] unmatched_work_order, [])).
Proof.
  assert (H1 : signs unmatched_work_order = Some [sign_at 40]) by reflexivity.
  assert (H2 : [sign_at 40] = [] \/ street_segments unmatched_work_order = Some [])
    by (right; reflexivity).
  split; [exact H1 | split; [exact H2 |]].
  exact (construct_location_unmatched line_distance unmatched_work_order [] [sign_at 40] H1 H2).
Defined.

(** C5 as stated fails in both of its cases: the step raises no error of
    its own. For the unmatched sign the failure is the AttributeError of
    reading [attributes] on None, and no ValueError with a message is
    raised. For the empty list of signs the failure is the error of [max()]
    on an empty sequence, the one [most_common_name] gives for an empty
    list of names: its message is the same whatever the attributes of the
    work order are, and describes neither the step nor the work order. *)
Lemma construct_location_unmatched_counterexample :
  ((_ ← identify_nearest_sign_segments line_distance; construct_location)
     (unmatched_work_order, []) =
     (Raise (AttributeError "attributes"),
      (set_sign_segments [None] unmatched_work_order, [])) /\
   forall msg,
     fst ((_ ← identify_nearest_sign_segments line_distance; construct_location)
            (unmatched_work_order, [])) <> Raise (ValueError msg)) /\
  ((_ ← identify_nearest_sign_segments line_distance; construct_location)
     (signless_work_order, []) =
     (Raise (ValueError "max() arg is an empty sequence"),
      (set_sign_segments [] signless_work_order, [])) /\
   most_common_name [] = Raise (ValueError "max() arg is an empty sequence") /\
   forall attrs,
     fst ((_ ← identify_nearest_sign_segments line_distance; construct_location)
            (set_attributes attrs signless_work_order, [])) =
     Raise (ValueError "max() arg is an empty sequence")).
Proof.
  split; [split; [reflexivity | intros msg H; discriminate H] |].
  split; [reflexivity | split; [reflexivity | intros attrs; reflexivity]].
Qed.

Lemma construct_engineer_note_branches_witness :
  install_sign !! "INSTRUCTIONS" = Some (VStr "INSTALL") /\
  install_sign !! "COMMENTS" = Some (VStr "near school") /\
  install_sign !! "CURRENT_SPEED_LIMIT" = Some (VInt 30) /\
  install_sign !! "FUTURE_SPEED_LIMIT" = Some (VInt 25) /\
  install_sign !! "CUSTOM_SIGN" = Some VNone /\
  install_sign !! "SIGN_TYPE" = Some (VStr "24x30") /\
  construct_engineer_note install_sign =
    Ok (String.concat ""
          ["Action: INSTALL" +:+ nl; "Speed limit: 25" +:+ nl; "Size: 24x30" +:+ nl;
           ""; "Note: near school" +:+ nl]).
Proof.
  assert (H1 : install_sign !! "INSTRUCTIONS" = Some (VStr "INSTALL")) by reflexivity.
  assert (H2 : install_sign !! "COMMENTS" = Some (VStr "near school")) by reflexivity.
  assert (H3 : install_sign !! "CURRENT_SPEED_LIMIT" = Some (VInt 30)) by reflexivity.
  assert (H4 : install_sign !! "FUTURE_SPEED_LIMIT" = Some (VInt 25)) by reflexivity.
  assert (H5 : install_sign !! "CUSTOM_SIGN" = Some VNone) by reflexivity.
  assert (H6 : install_sign !! "SIGN_TYPE" = Some (VStr "24x30")) by reflexivity.
  repeat (split; [assumption |]).
  exact (proj1 (proj1 (construct_engineer_note_branches install_sign _ _ _ _ _ _
                         H1 H2 H3 H4 H5 H6) (or_intror eq_refl))).
Defined.

(** A REMOVE note never shows the future speed limit, and still fails when
    FUTURE_SPEED_LIMIT is missing. *)
Lemma construct_engineer_note_requires_all_keys_witness :
  remove_sign_no_future !! "INSTRUCTIONS" = Some (VStr "REMOVE") /\
  In "FUTURE_SPEED_LIMIT" ["COMMENTS"; "CURRENT_SPEED_LIMIT"; "FUTURE_SPEED_LIMIT";
                           "CUSTOM_SIGN"; "SIGN_TYPE"] /\
  remove_sign_no_future !! "FUTURE_SPEED_LIMIT" = None /\
  exists k',
    In k' ["COMMENTS"; "CURRENT_SPEED_LIMIT"; "FUTURE_SPEED_LIMIT";
           "CUSTOM_SIGN"; "SIGN_TYPE"] /\
    remove_sign_no_future !! k' = None /\
    construct_engineer_note remove_sign_no_future = Raise (KeyError k').
Proof.
  assert (H1 : remove_sign_no_future !! "INSTRUCTIONS" = Some (VStr "REMOVE")) by reflexivity.
  assert (H2 : In "FUTURE_SPEED_LIMIT" ["COMMENTS"; "CURRENT_SPEED_LIMIT";
                                        "FUTURE_SPEED_LIMIT"; "CUSTOM_SIGN"; "SIGN_TYPE"])
    by (right; right; left; reflexivity).
  assert (H3 : remove_sign_no_future !! "FUTURE_SPEED_LIMIT" = None) by reflexivity.
  split; [exact H1 | split; [exact H2 | split; [exact H3 |]]].
  exact (construct_engineer_note_requires_all_keys remove_sign_no_future _ _ H1 H2 H3).
Defined.

(** Work order 3 has no sign: it is skipped and work order 1 is processed. *)
Lemma main_loop_skips_work_order_without_signs_witness :
  signs_layer (layers (work_order 3)) (wo_geometry (work_order 3)) = [] /\
  wo_attributes (work_order 3) !! "OBJECTID" = Some (VInt 3) /\
  process_work_order line_distance all_valid show_geometry same_point one_request
      (work_order 3, []) =
    (Ok tt,
     (set_signs [] (work_order 3),
      [Query SignsLayer 3; Log Warning "Work order has no intersecting sign points: 3"])) /\
  run [work_order 3] =
    (Ok tt,
     [Query SignsLayer 3; Log Warning "Work order has no intersecting sign points: 3"]) /\
  run [work_order 3; work_order 1] =
    main_loop line_distance all_valid show_geometry same_point one_request [work_order 1]
      [Query SignsLayer 3; Log Warning "Work order has no intersecting sign points: 3"].
Proof.
  assert (H1 : signs_layer (layers (work_order 3)) (wo_geometry (work_order 3)) = [])
    by reflexivity.
  assert (H2 : wo_attributes (work_order 3) !! "OBJECTID" = Some (VInt 3)) by reflexivity.
  split; [exact H1 | split; [exact H2 |]].
  exact (main_loop_skips_work_order_without_signs line_distance all_valid show_geometry
           same_point one_request (work_order 3) [work_order 1] [] (VInt 3) H1 H2).
Defined.

(** Work order 2 has a sign and no street segment: the loop stops. *)
Lemma main_loop_stops_without_street_segments_witness :
  signs_layer (layers (work_order 2)) (wo_geometry (work_order 2)) <> [] /\
  wo_attributes (work_order 2) !! "OBJECTID" = Some (VInt 2) /\
  all_valid (same_point (wo_geometry (work_order 2))) = true /\
  (forall area others,
      eng_areas_layer (layers (work_order 2)) (same_point (wo_geometry (work_order 2)))
        = area :: others ->
      is_Some (attributes area !! "ATD_ENGINEER_AREAS")) /\
  street_segments_layer (layers (work_order 2)) (wo_geometry (work_order 2)) = [] /\
  forall rest,
    main_loop line_distance all_valid show_geometry same_point one_request
      (work_order 2 :: rest) [] =
      (Raise (ValueError "No street segments found at work order location: 2"),
       [Query SignsLayer 2; Query EngAreasLayer 2;
        Log Warning "No work area found for 2"; Query StreetSegmentsLayer 2]).
Proof.
  assert (H1 : signs_layer (layers (work_order 2)) (wo_geometry (work_order 2)) <> [])
    by discriminate.
  assert (H2 : wo_attributes (work_order 2) !! "OBJECTID" = Some (VInt 2)) by reflexivity.
  assert (H3 : all_valid (same_point (wo_geometry (work_order 2))) = true) by reflexivity.
  assert (H4 : forall area others,
             eng_areas_layer (layers (work_order 2)) (same_point (wo_geometry (work_order 2)))
               = area :: others ->
             is_Some (attributes area !! "ATD_ENGINEER_AREAS"))
    by (intros area others H; discriminate H).
  assert (H5 : street_segments_layer (layers (work_order 2)) (wo_geometry (work_order 2)) = [])
    by reflexivity.
  repeat (split; [assumption |]).
  exact (main_loop_stops_without_street_segments line_distance all_valid show_geometry
           same_point one_request (work_order 2) [] (VInt 2) H1 H2 H3 H4 H5).
Defined.

(** C7 as stated fails: after work order 2, which has no street segment,
    the loop does not go on with work order 1. The run ends with the error
    of work order 2 and the signs layer is never queried for work order 1,
    although a run of work order 1 alone starts with that query. *)
Lemma main_loop_continues_counterexample :
  run [work_order 2; work_order 1] =
    (Raise (ValueError "No street segments found at work order location: 2"),
     [Query SignsLayer 2; Query EngAreasLayer 2;
      Log Warning "No work area found for 2"; Query StreetSegmentsLayer 2]) /\
  ~ In (Query SignsLayer 1) (snd (run [work_order 2; work_order 1])) /\
  In (Query SignsLayer 1) (snd (run [work_order 1])).
Proof.
  split; [reflexivity | split].
  - intros [H | [H | [H | [H | []]]]]; discriminate H.
  - left. reflexivity.
Qed.

(** * Further properties of the code *)

(** ** The matcher on arbitrary distances *)

Lemma SFltb_not_nan x y : SFltb x y = true -> x <> S754_nan /\ y <> S754_nan.
Proof.
  intros H. split; intros ->; [discriminate |].
  destruct x as [[]|[]| |[] m e]; discriminate.
Qed.

Lemma SFltb_trans x y z : SFltb x y = true -> SFltb y z = true -> SFltb x z = true.
Proof.
  intros H1 H2.
  destruct (SFltb_not_nan _ _ H1) as [Nx Ny], (SFltb_not_nan _ _ H2) as [_ Nz].
  apply SFltb_key in H1; auto. apply SFltb_key in H2; auto.
  apply SFltb_key; auto. eapply lex_lt_trans; eauto.
Qed.

Section NearestAnyDistance.

Context {Geometry : Type}.
Variable shape_distance : Geometry -> Geometry -> spec_float.
Variable target : Feature Geometry.

Let dist (c : Feature Geometry) : spec_float :=
  shape_distance (geometry target) (geometry c).

(** Whatever the distances are (infinite or NaN included), the loop holds
    either nothing and +inf, having seen no distance below +inf, or a
    candidate it has seen with its distance, which is below +inf. *)
Lemma find_nearest_feature_state p :
  match find_nearest_feature shape_distance target p with
  | (None, d) =>
      d = S754_infinity false /\
      forall c, In c p -> SFltb (dist c) (S754_infinity false) = false
  | (Some n, d) =>
      In n p /\ d = dist n /\ SFltb d (S754_infinity false) = true
  end.
Proof.
  induction p as [|c p IH] using rev_ind.
  - cbn. split; [reflexivity | intros c []].
  - unfold find_nearest_feature in *. rewrite fold_left_app. cbn [fold_left].
    destruct (fold_left (nearest_step shape_distance target) p (None, S754_infinity false))
      as [[n|] d]; unfold nearest_step; cbn [snd]; fold (dist c).
    + destruct IH as (Hn & -> & Hd).
      destruct (SFltb (dist c) (dist n)) eqn:E.
      * split; [apply in_or_app; right; now left | split; [reflexivity |]].
        eapply SFltb_trans; eauto.
      * split; [apply in_or_app; now left | auto].
    + destruct IH as (-> & Hall).
      destruct (SFltb (dist c) (S754_infinity false)) eqn:E.
      * split; [apply in_or_app; right; now left | auto].
      * split; [reflexivity |].
        intros c' [Hc' | [<- | []]]%in_app_or; auto.
Qed.

Lemma find_nearest_feature_In (candidates : list (Feature Geometry)) nearest d :
  find_nearest_feature shape_distance target candidates = (Some nearest, d) ->
  In nearest candidates.
Proof.
  intros E. pose proof (find_nearest_feature_state candidates) as H.
  rewrite E in H. exact (proj1 H).
Qed.

(** X1. [find_nearest_feature] returns None exactly when no candidate lies
    at a distance below +inf from the target (an empty list, or distances
    that are all +inf or NaN); the distance returned is then +inf. *)
Theorem find_nearest_feature_none_iff (candidates : list (Feature Geometry)) :
  (fst (find_nearest_feature shape_distance target candidates) = None <->
   forall c, In c candidates -> SFltb (dist c) (S754_infinity false) = false) /\
  (fst (find_nearest_feature shape_distance target candidates) = None ->
   snd (find_nearest_feature shape_distance target candidates) = S754_infinity false).
Proof.
  pose proof (find_nearest_feature_state candidates) as H.
  destruct (find_nearest_feature shape_distance target candidates) as [[n|] d]; cbn [fst snd].
  - destruct H as (Hn & -> & Hd). split; [split |]; try discriminate.
    intros Hall. rewrite (Hall n Hn) in Hd. discriminate.
  - destruct H as (-> & Hall). split; [split |]; auto.
Qed.

(** X2. Whatever the distances are, a feature returned by
    [find_nearest_feature] is one of the candidates, the distance returned
    with it is its distance to the target, and that distance is below
    +inf. *)
Theorem find_nearest_feature_member (candidates : list (Feature Geometry)) nearest d :
  find_nearest_feature shape_distance target candidates = (Some nearest, d) ->
  In nearest candidates /\ d = dist nearest /\ SFltb d (S754_infinity false) = true.
Proof.
  intros E. pose proof (find_nearest_feature_state candidates) as H.
  rewrite E in H. exact H.
Qed.

End NearestAnyDistance.

(** ** The matching step *)

Section MatchingStep.

Context {Geometry : Type}.
Variable shape_distance : Geometry -> Geometry -> spec_float.
Implicit Types (wo : WorkOrder Geometry) (tr : list (event Geometry)).

(** X3. With the signs and street segments fetched, the matching step never
    raises; it stores one match per sign, in sign order, the match of a
    sign being the result of [find_nearest_feature] for it, and every match
    that is not None is one of the work order's street segments. Nothing
    else of the work order changes and nothing is logged. *)
Theorem identify_nearest_sign_segments_parallel wo tr sgns segs :
  signs wo = Some sgns ->
  street_segments wo = Some segs ->
  exists matched,
    identify_nearest_sign_segments shape_distance (wo, tr) =
      (Ok tt, (set_sign_segments matched wo, tr)) /\
    length matched = length sgns /\
    (forall (i : nat) sign, sgns !! i = Some sign ->
       matched !! i = Some (fst (find_nearest_feature shape_distance sign segs))) /\
    (forall f, In (Some f) matched -> In f segs).
Proof.
  intros Hs Hsegs.
  exists (map (fun sign => fst (find_nearest_feature shape_distance sign segs)) sgns).
  split; [| split; [| split]].
  - rewrite (identify_nearest_sign_segments_eq shape_distance wo tr sgns Hs) by eauto.
    now rewrite Hsegs.
  - apply length_map.
  - intros i sign Hi. rewrite list_lookup_fmap, Hi. reflexivity.
  - intros f Hf. apply in_map_iff in Hf as (sign & E & _).
    destruct (find_nearest_feature shape_distance sign segs) as [o d] eqn:En.
    cbn [fst] in E. subst o.
    exact (find_nearest_feature_In shape_distance sign segs f d En).
Qed.

(** X4. The matching step resets the matches before it reads the signs:
    on a work order whose signs were never fetched it raises
    AttributeError and leaves an empty list of matches behind, whatever
    matches were stored before. *)
Theorem identify_nearest_sign_segments_without_signs wo tr :
  signs wo = None ->
  identify_nearest_sign_segments shape_distance (wo, tr) =
    (Raise (AttributeError "signs"), (set_sign_segments [] wo, tr)).
Proof.
  intros Hs.
  cbv [identify_nearest_sign_segments mbind M_bind get_self getattr lift mret M_ret
       modify_self result_bind fst snd].
  cbn [set_sign_segments signs]. now rewrite Hs.
Qed.

End MatchingStep.

(** ** Missing block numbers *)

Section BlockRangeErrors.

Context {Geometry : Type}.
Implicit Types (segs : list (Feature Geometry)).

Lemma list_comp_missing_key (key : string) segs :
  (exists s, In s segs /\ attributes s !! key = None) ->
  list_comp (fun s => getitem (attributes s) key) segs = Raise (KeyError key).
Proof.
  induction segs as [|s segs IH]; intros (s0 & Hin & Hnone); [destruct Hin |].
  cbn [list_comp]. destruct (attributes s !! key) as [v|] eqn:E.
  - rewrite (getitem_Some _ _ _ E). cbn [mbind result_bind].
    destruct Hin as [-> | Hin]; [congruence |].
    rewrite IH by eauto. reflexivity.
  - now rewrite (getitem_None _ _ E).
Qed.

(** X5. When any segment of the list lacks LEFT_BLOCK_FROM, [block_range]
    raises KeyError for that key, wherever the segment is in the list and
    whatever the other attributes are. *)
Theorem block_range_missing_from segs s :
  In s segs ->
  attributes s !! "LEFT_BLOCK_FROM" = None ->
  block_range segs = Raise (KeyError "LEFT_BLOCK_FROM").
Proof.
  intros Hin Hnone. unfold block_range.
  rewrite (list_comp_missing_key "LEFT_BLOCK_FROM" segs) by eauto. reflexivity.
Qed.

End BlockRangeErrors.

(** ** The block range as a hull *)

Section BlockRangeHull.

Context {Geometry : Type}.
Implicit Types (segs : list (Feature Geometry)).

Lemma int_blocks_lists segs :
  Forall int_blocks segs ->
  exists froms tos,
    Forall2 (fun s x => attributes s !! "LEFT_BLOCK_FROM" = Some (VInt x)) segs froms /\
    Forall2 (fun s x => attributes s !! "LEFT_BLOCK_TO" = Some (VInt x)) segs tos /\
    Forall (fun x => - (100 * 2 ^ 47) < x < 100 * 2 ^ 47) froms /\
    Forall (fun x => - (100 * 2 ^ 47) < x < 100 * 2 ^ 47) tos.
Proof.
  induction 1 as [|s segs (f & t & Hf & Ht & Bf & Bt) _ (froms & tos & F1 & F2 & B1 & B2)].
  - exists [], []. repeat split; constructor.
  - exists (f :: froms), (t :: tos). repeat split; constructor; assumption.
Qed.

Lemma Forall2_attr_In (key : string) segs xs :
  Forall2 (fun s x => attributes s !! key = Some (VInt x)) segs xs ->
  (forall x, In x xs -> exists s, In s segs /\ attributes s !! key = Some (VInt x)) /\
  (forall s x, In s segs -> attributes s !! key = Some (VInt x) -> In x xs).
Proof.
  induction 1 as [|s x segs xs Hs _ [IH1 IH2]].
  - split; [intros x [] | intros s x []].
  - split.
    + intros y [<- | Hy]; [exists s; split; [now left | assumption] |].
      destruct (IH1 y Hy) as (s' & Hin & E). exists s'. split; [now right | assumption].
    + intros s' y [<- | Hin] E; [left; congruence | right; eauto].
Qed.

(** The range in closed form: the floor and ceiling to hundreds of the
    least LEFT_BLOCK_FROM and the greatest LEFT_BLOCK_TO. *)
Lemma block_range_exact segs :
  segs <> [] -> Forall int_blocks segs ->
  exists lo hi,
    block_range segs = Ok (lo / 100 * 100, - (- hi / 100) * 100) /\
    (exists s, In s segs /\ attributes s !! "LEFT_BLOCK_FROM" = Some (VInt lo)) /\
    (forall s x, In s segs -> attributes s !! "LEFT_BLOCK_FROM" = Some (VInt x) -> lo <= x) /\
    (exists s, In s segs /\ attributes s !! "LEFT_BLOCK_TO" = Some (VInt hi)) /\
    (forall s x, In s segs -> attributes s !! "LEFT_BLOCK_TO" = Some (VInt x) -> x <= hi).
Proof.
  intros Hne Hall.
  destruct (int_blocks_lists segs Hall) as (froms & tos & Hf & Ht & Bf & Bt).
  destruct (Forall2_attr_In _ _ _ Hf) as [Fin Fout].
  destruct (Forall2_attr_In _ _ _ Ht) as [Tin Tout].
  unfold block_range.
  rewrite (list_comp_ints _ _ _ Hf). cbn [mbind result_bind].
  destruct froms as [|f0 froms]; [inversion Hf; subst; contradiction |].
  destruct tos as [|t0 tos]; [inversion Ht; subst; contradiction |].
  cbn [map py_min].
  destruct (py_min_from_ints f0 froms) as (lo & Emin & Hlo & Hle). rewrite Emin.
  cbn [mbind result_bind].
  rewrite (list_comp_ints _ _ _ Ht). cbn [mbind result_bind map py_max].
  destruct (py_max_from_ints t0 tos) as (hi & Emax & Hhi & Hge). rewrite Emax.
  cbn [mbind result_bind py_truediv].
  assert (Blo : - (100 * 2 ^ 47) < lo < 100 * 2 ^ 47).
  { rewrite Forall_forall in Bf. apply Bf, list_elem_of_In, Hlo. }
  assert (Bhi : - (100 * 2 ^ 47) < hi < 100 * 2 ^ 47).
  { rewrite Forall_forall in Bt. apply Bt, list_elem_of_In, Hhi. }
  destruct (truediv_100_exact lo Blo) as (q1 & E1 & F1 & _).
  destruct (truediv_100_exact hi Bhi) as (q2 & E2 & _ & C2).
  rewrite E1. cbn [mbind result_bind]. rewrite F1. cbn [mbind result_bind].
  rewrite E2. cbn [mbind result_bind]. rewrite C2. cbn [mbind result_bind].
  exists lo, hi. repeat split; eauto.
Qed.

(** X6. The block range does not depend on the order of the segments. *)
Theorem block_range_permutation segs segs' :
  segs <> [] -> Forall int_blocks segs -> Permutation segs segs' ->
  block_range segs' = block_range segs.
Proof.
  intros Hne Hall Hperm.
  assert (Hne' : segs' <> []).
  { intros ->. apply Permutation_nil_r in Hperm. contradiction. }
  assert (Hall' : Forall int_blocks segs').
  { rewrite Forall_forall in *. intros s Hs. apply Hall.
    apply list_elem_of_In. apply list_elem_of_In in Hs.
    eapply Permutation_in; [symmetry; exact Hperm | exact Hs]. }
  destruct (block_range_exact segs Hne Hall)
    as (lo & hi & E & (s1 & I1 & A1) & L & (s2 & I2 & A2) & H).
  destruct (block_range_exact segs' Hne' Hall')
    as (lo' & hi' & E' & (s1' & I1' & A1') & L' & (s2' & I2' & A2') & H').
  rewrite E, E'.
  pose proof (L' s1 lo (Permutation_in _ Hperm I1) A1).
  pose proof (L s1' lo' (Permutation_in _ (Permutation_sym Hperm) I1') A1').
  pose proof (H' s2 hi (Permutation_in _ Hperm I2) A2).
  pose proof (H s2' hi' (Permutation_in _ (Permutation_sym Hperm) I2') A2').
  replace lo' with lo by lia. replace hi' with hi by lia. reflexivity.
Qed.

(** X7. One more segment can only widen the block range: the start does
    not grow and the end does not shrink. *)
Theorem block_range_extends segs s start stop :
  Forall int_blocks (s :: segs) ->
  block_range segs = Ok (start, stop) ->
  exists start' stop',
    block_range (s :: segs) = Ok (start', stop') /\ start' <= start /\ stop <= stop'.
Proof.
  intros Hall E.
  assert (Hne : segs <> []).
  { intros ->. discriminate E. }
  assert (Hall0 : Forall int_blocks segs) by (inversion Hall; assumption).
  destruct (block_range_exact segs Hne Hall0)
    as (lo & hi & E0 & (s1 & I1 & A1) & L & (s2 & I2 & A2) & H).
  destruct (block_range_exact (s :: segs) ltac:(discriminate) Hall)
    as (lo' & hi' & E' & _ & L' & _ & H').
  rewrite E0 in E. injection E as <- <-.
  exists (lo' / 100 * 100), (- (- hi' / 100) * 100). split; [exact E' |].
  assert (lo' <= lo) by (eapply L'; [right; exact I1 | exact A1]).
  assert (hi <= hi') by (eapply H'; [right; exact I2 | exact A2]).
  pose proof (Z.div_le_mono lo' lo 100 ltac:(lia) ltac:(lia)).
  pose proof (Z.div_le_mono (- hi') (- hi) 100 ltac:(lia) ltac:(lia)).
  lia.
Qed.

(** X8. The range is never inverted: when some segment has its
    LEFT_BLOCK_FROM at most its LEFT_BLOCK_TO, the start is at most the
    end, and every block number of every segment lies between them. *)
Theorem block_range_covers segs s f t :
  Forall int_blocks segs ->
  In s segs ->
  attributes s !! "LEFT_BLOCK_FROM" = Some (VInt f) ->
  attributes s !! "LEFT_BLOCK_TO" = Some (VInt t) ->
  exists start stop,
    block_range segs = Ok (start, stop) /\
    start <= f /\ t <= stop /\ (f <= t -> start <= stop).
Proof.
  intros Hall Hin Hf Ht.
  assert (Hne : segs <> []) by (intros ->; destruct Hin).
  destruct (block_range_exact segs Hne Hall)
    as (lo & hi & E & _ & L & _ & H).
  exists (lo / 100 * 100), (- (- hi / 100) * 100). split; [exact E |].
  specialize (L s f Hin Hf). specialize (H s t Hin Ht).
  pose proof (Z.div_mod lo 100 ltac:(lia)) as D1.
  pose proof (Z.mod_pos_bound lo 100 ltac:(lia)) as M1.
  pose proof (Z.div_mod (- hi) 100 ltac:(lia)) as D2.
  pose proof (Z.mod_pos_bound (- hi) 100 ltac:(lia)) as M2.
  lia.
Qed.

End BlockRangeHull.

(** ** Location synthesis, run again *)

Section ConstructLocationAgain.

Context {Geometry : Type}.
Implicit Types (wo : WorkOrder Geometry) (tr : list (event Geometry)).

Lemma insert_location_twice (a : gmap string value) (name sid : value) :
  <["LOCATION_STREET_SEGMENT_ID_REFERENCE" := sid]>
    (<["GENERATED_LOCATION_FROM_API" := name]>
       (<["LOCATION_STREET_SEGMENT_ID_REFERENCE" := sid]>
          (<["GENERATED_LOCATION_FROM_API" := name]> a)))
  = <["LOCATION_STREET_SEGMENT_ID_REFERENCE" := sid]>
      (<["GENERATED_LOCATION_FROM_API" := name]> a).
Proof.
  apply map_eq. intros k.
  destruct (decide (k = "LOCATION_STREET_SEGMENT_ID_REFERENCE")) as [-> | N1].
  - now rewrite !lookup_insert_eq.
  - destruct (decide (k = "GENERATED_LOCATION_FROM_API")) as [-> | N2].
    + rewrite !(lookup_insert_ne _ "LOCATION_STREET_SEGMENT_ID_REFERENCE") by congruence.
      now rewrite !lookup_insert_eq.
    + now rewrite !lookup_insert_ne by congruence.
Qed.

(** X9. Location synthesis reads the matches only: once it has succeeded,
    running it again succeeds and leaves the work order exactly as it is. *)
Theorem construct_location_idempotent wo tr st :
  construct_location (wo, tr) = (Ok tt, st) ->
  construct_location st = (Ok tt, st).
Proof.
  intros E.
  destruct (sign_segments wo) as [l|] eqn:Hl.
  2:{ rewrite (construct_location_unset _ _ Hl) in E. discriminate. }
  rewrite (construct_location_unfold _ _ _ Hl) in E.
  match type of E with context [match ?r with Ok _ => _ | Raise _ => _ end] =>
    destruct r as [[name sid] | e] eqn:Er end; [| discriminate].
  injection E as <-.
  rewrite (construct_location_unfold _ _ l) by exact Hl.
  rewrite Er. cbn [set_attributes wo_attributes wo_geometry layers signs street_segments
                   sign_segments].
  now rewrite insert_location_twice.
Qed.

End ConstructLocationAgain.

(** ** Fields the note does not show *)

Section NoteFrame.

Variable data : gmap string value.
Variables com cur fut cus typ : value.
Hypothesis Hcom : data !! "COMMENTS" = Some com.
Hypothesis Hcur : data !! "CURRENT_SPEED_LIMIT" = Some cur.
Hypothesis Hfut : data !! "FUTURE_SPEED_LIMIT" = Some fut.
Hypothesis Hcus : data !! "CUSTOM_SIGN" = Some cus.
Hypothesis Htyp : data !! "SIGN_TYPE" = Some typ.

(** X10. On a sign with all its fields, a REPLACE or INSTALL note does not
    depend on the current speed limit: any other value of
    CURRENT_SPEED_LIMIT gives the same note. *)
Theorem install_note_ignores_current_speed ins v :
  data !! "INSTRUCTIONS" = Some ins ->
  ins = VStr "REPLACE" \/ ins = VStr "INSTALL" ->
  construct_engineer_note (<["CURRENT_SPEED_LIMIT" := v]> data) =
  construct_engineer_note data.
Proof.
  intros Hins Hcase.
  rewrite (construct_engineer_note_eq data ins com cur fut cus typ) by assumption.
  rewrite (construct_engineer_note_eq (<["CURRENT_SPEED_LIMIT" := v]> data)
             ins com v fut cus typ);
    try (rewrite lookup_insert_ne by discriminate; assumption);
    try apply lookup_insert_eq.
  destruct Hcase as [-> | ->]; reflexivity.
Qed.

(** X11. On a sign with all its fields, a REMOVE note does not depend on
    the future speed limit, the custom sign or the sign size: any other
    values of these three fields give the same note. *)
Theorem remove_note_ignores_install_fields v1 v2 v3 :
  data !! "INSTRUCTIONS" = Some (VStr "REMOVE") ->
  construct_engineer_note
    (<["FUTURE_SPEED_LIMIT" := v1]>
       (<["CUSTOM_SIGN" := v2]> (<["SIGN_TYPE" := v3]> data))) =
  construct_engineer_note data.
Proof.
  intros Hins.
  rewrite (construct_engineer_note_eq data (VStr "REMOVE") com cur fut cus typ)
    by assumption.
  rewrite (construct_engineer_note_eq _ (VStr "REMOVE") com cur v1 v2 v3);
    [reflexivity | ..];
    repeat first [ apply lookup_insert_eq
                 | rewrite lookup_insert_ne by discriminate ];
    assumption.
Qed.

End NoteFrame.

(** ** More on the loop of main *)

Section MainLoopMore.

Context {Geometry : Type}.
Variable shape_distance : Geometry -> Geometry -> spec_float.
Variable is_valid : Geometry -> bool.
Variable geometry_repr : Geometry -> string.
Variable centroid : Geometry -> Geometry.
Variable knack_sync : WorkOrder Geometry -> result unit * list (event Geometry).
Implicit Types (wo : WorkOrder Geometry) (tr : list (event Geometry)).

(** X12. The loop of main over a batch in which no work order has signs
    (and each has an OBJECTID) ends normally, and all it does is, for each
    work order in order, the signs query and the warning: inside the loop
    no other layer is queried and none of the steps that follow the skip
    runs. What main does before the loop (the query of the work orders and
    the fetch of the Knack accounts) is outside this statement. *)
Theorem main_loop_without_any_signs (work_orders : list (WorkOrder Geometry)) tr :
  Forall (fun wo => signs_layer (layers wo) (wo_geometry wo) = [] /\
                    is_Some (wo_attributes wo !! "OBJECTID")) work_orders ->
  main_loop shape_distance is_valid geometry_repr centroid knack_sync work_orders tr =
    (Ok tt, tr ++ concat (map skipped_trace work_orders)).
Proof.
  intros Hall. revert tr.
  induction Hall as [|wo wos [Hs [oid Hoid]] _ IH]; intros tr.
  - cbn. now rewrite app_nil_r.
  - cbn [main_loop map concat].
    rewrite (process_work_order_no_signs shape_distance is_valid geometry_repr centroid
               knack_sync wo tr oid Hs Hoid).
    rewrite IH. unfold skipped_trace at 2. rewrite Hoid. cbn [default].
    now rewrite <- app_assoc.
Qed.

(** X13. When several engineer areas contain the centroid, the first one
    returned decides WORK_AREA; the others are not looked at, no warning is
    logged, and no other attribute changes. *)
Theorem identify_eng_area_first_area wo tr area others v :
  is_valid (centroid (wo_geometry wo)) = true ->
  eng_areas_layer (layers wo) (centroid (wo_geometry wo)) = area :: others ->
  attributes area !! "ATD_ENGINEER_AREAS" = Some v ->
  identify_eng_area is_valid geometry_repr centroid (wo, tr) =
    (Ok tt,
     (set_attributes (<["WORK_AREA" := v]> (wo_attributes wo)) wo,
      tr ++ [Query EngAreasLayer (centroid (wo_geometry wo))])).
Proof.
  intros Hval Harea Hv.
  cbv [identify_eng_area create_geom_filter mbind M_bind get_self getattr lift mret
       M_ret modify_self emit result_bind fst snd].
  rewrite Hval, Harea, (getitem_Some _ _ _ Hv). reflexivity.
Qed.

(** X14. A centroid that is not a valid geometry stops the step before
    any query: ValueError with the geometry in its message, the work order
    and the trace untouched. *)
Theorem identify_eng_area_invalid_centroid wo tr :
  is_valid (centroid (wo_geometry wo)) = false ->
  identify_eng_area is_valid geometry_repr centroid (wo, tr) =
    (Raise (ValueError ("Invalid feature geometry: "
                        +:+ geometry_repr (centroid (wo_geometry wo)))),
     (wo, tr)).
Proof.
  intros Hval.
  cbv [identify_eng_area create_geom_filter mbind M_bind get_self getattr lift mret
       M_ret modify_self emit result_bind fst snd].
  now rewrite Hval.
Qed.

Lemma identify_eng_area_outcome wo tr :
  (exists e st, identify_eng_area is_valid geometry_repr centroid (wo, tr) = (Raise e, st)) \/
  (exists v tr',
      identify_eng_area is_valid geometry_repr centroid (wo, tr) =
        (Ok tt, (set_attributes (<["WORK_AREA" := v]> (wo_attributes wo)) wo, tr'))).
Proof.
  cbv [identify_eng_area create_geom_filter mbind M_bind get_self getattr lift mret
       M_ret modify_self emit result_bind fst snd].
  destruct (is_valid (centroid (wo_geometry wo))); [| left; eauto].
  destruct (eng_areas_layer (layers wo) (centroid (wo_geometry wo))) as [|area others].
  - destruct (getitem (wo_attributes wo) "OBJECTID"); [right | left]; eauto.
  - destruct (getitem (attributes area) "ATD_ENGINEER_AREAS"); [right | left]; eauto.
Qed.

Lemma identify_street_segments_outcome wo tr :
  (exists e st, identify_street_segments (wo, tr) = (Raise e, st)) \/
  (exists found tr',
      identify_street_segments (wo, tr) = (Ok tt, (set_street_segments found wo, tr'))).
Proof.
  cbv [identify_street_segments mbind M_bind get_self getattr lift mret
       M_ret modify_self emit result_bind fst snd].
  destruct (street_segments_layer (layers wo) (wo_geometry wo)) as [|s segs].
  - destruct (getitem (wo_attributes wo) "OBJECTID"); left; eauto.
  - right. eauto.
Qed.

(** X15. In a pass of the loop of main, the steps that follow location
    synthesis (from [set_knack_user_id] to the last Knack update: the
    creation of the Knack records and the write-back to AGOL) run on a
    located work order only. A pass either reaches them with a work order
    that has the keys WORK_AREA, GENERATED_LOCATION_FROM_API and
    LOCATION_STREET_SEGMENT_ID_REFERENCE, or never reaches them: its
    outcome and its trace are then the same whatever these steps would
    do. The queries of the pass itself and what main does before the loop
    are outside this statement. *)
Theorem sync_only_after_location wo tr :
  (exists st,
      process_work_order shape_distance is_valid geometry_repr centroid knack_sync (wo, tr)
        = sync knack_sync st /\
      is_Some (wo_attributes (fst st) !! "WORK_AREA") /\
      is_Some (wo_attributes (fst st) !! "GENERATED_LOCATION_FROM_API") /\
      is_Some (wo_attributes (fst st) !! "LOCATION_STREET_SEGMENT_ID_REFERENCE")) \/
  (exists out,
      forall other_sync,
        process_work_order shape_distance is_valid geometry_repr centroid other_sync (wo, tr)
          = out).
Proof.
  unfold process_work_order.
  destruct (signs_layer (layers wo) (wo_geometry wo)) as [|s sgns] eqn:Hs.
  - right. eexists. intros ks.
    rewrite (M_bind_Ok _ _ _ _ _ (get_signs_eq wo tr)), Hs.
    rewrite M_bind_get_self. cbn [fst signs set_signs getattr]. rewrite M_bind_ret.
    reflexivity.
  - set (wo1 := set_signs (s :: sgns) wo).
    set (tr1 := tr ++ [Query SignsLayer (wo_geometry wo)]).
    assert (Hstart : forall ks,
      (_ ← get_signs; wo0 ← get_self; l ← getattr "signs" (signs wo0);
       match l with
       | [] =>
           oid ← lift (getitem (wo_attributes wo0) "OBJECTID");
           emit (Log Warning ("Work order has no intersecting sign points: " +:+ py_str oid))
       | _ :: _ =>
           _ ← identify_eng_area is_valid geometry_repr centroid;
           _ ← identify_street_segments;
           _ ← identify_nearest_sign_segments shape_distance;
           _ ← construct_location; sync ks
       end) (wo, tr) =
      (_ ← identify_eng_area is_valid geometry_repr centroid;
       _ ← identify_street_segments;
       _ ← identify_nearest_sign_segments shape_distance;
       _ ← construct_location; sync ks) (wo1, tr1)).
    { intros ks. rewrite (M_bind_Ok _ _ _ _ _ (get_signs_eq wo tr)), Hs.
      rewrite M_bind_get_self. cbn [fst signs set_signs getattr]. rewrite M_bind_ret.
      reflexivity. }
    destruct (identify_eng_area_outcome wo1 tr1) as [(e & st & E1) | (v & tr2 & E1)].
    { right. eexists. intros ks. rewrite Hstart, (M_bind_Raise _ _ _ _ _ E1). reflexivity. }
    set (wo2 := set_attributes (<["WORK_AREA" := v]> (wo_attributes wo1)) wo1) in *.
    destruct (identify_street_segments_outcome wo2 tr2) as [(e & st & E2) | (found & tr3 & E2)].
    { right. eexists. intros ks.
      rewrite Hstart, (M_bind_Ok _ _ _ _ _ E1), (M_bind_Raise _ _ _ _ _ E2). reflexivity. }
    set (wo3 := set_street_segments found wo2) in *.
    assert (E3 := identify_nearest_sign_segments_eq shape_distance wo3 tr3 (s :: sgns)
                    eq_refl (or_intror (ex_intro _ found eq_refl))).
    match type of E3 with _ = (Ok tt, (?w, _)) => set (wo4 := w) in * end.
    destruct (construct_location_outcome wo4 tr3) as [(e & E4) | (name & sid & E4)].
    { right. eexists. intros ks.
      rewrite Hstart, (M_bind_Ok _ _ _ _ _ E1), (M_bind_Ok _ _ _ _ _ E2),
        (M_bind_Ok _ _ _ _ _ E3), (M_bind_Raise _ _ _ _ _ E4). reflexivity. }
    left. eexists. split.
    { rewrite Hstart, (M_bind_Ok _ _ _ _ _ E1), (M_bind_Ok _ _ _ _ _ E2),
        (M_bind_Ok _ _ _ _ _ E3), (M_bind_Ok _ _ _ _ _ E4). reflexivity. }
    cbn [fst set_attributes wo_attributes wo4 wo3 wo2 set_sign_segments set_street_segments].
    repeat split.
    + rewrite !lookup_insert_ne by discriminate. rewrite lookup_insert_eq. eauto.
    + rewrite lookup_insert_ne by discriminate. rewrite lookup_insert_eq. eauto.
    + rewrite lookup_insert_eq. eauto.
Qed.

End MainLoopMore.

(** ** Editor names *)

Lemma lower_ascii_idempotent c : lower_ascii (lower_ascii c) = lower_ascii c.
Proof. destruct c as [[] [] [] [] [] [] [] []]; reflexivity. Qed.

Lemma str_lower_idempotent s : str_lower (str_lower s) = str_lower s.
Proof.
  induction s as [|c s IH]; [reflexivity |].
  cbn [str_lower]. now rewrite lower_ascii_idempotent, IH.
Qed.

Lemma str_lower_app s t : str_lower (s +:+ t) = str_lower s +:+ str_lower t.
Proof.
  induction s as [|c s IH]; [reflexivity |].
  change (String (lower_ascii c) (str_lower (s +:+ t))
          = String (lower_ascii c) (str_lower s +:+ str_lower t)).
  now rewrite IH.
Qed.

(** X16. The editor name that [parse_editor_name] returns is in lower
    case: lowering it again changes nothing. *)
Theorem parse_editor_name_lower s :
  ascii_only s = true ->
  str_lower (parse_editor_name s) = parse_editor_name s.
Proof.
  intros _. unfold parse_editor_name.
  destruct (String.eqb (str_lower s) "atd_publisher"); [reflexivity |].
  apply str_lower_idempotent.
Qed.

Lemma prefix_split old s : String.prefix old s = true -> exists post, s = old +:+ post.
Proof.
  revert s. induction old as [|a old IH]; intros s H.
  - exists s. reflexivity.
  - destruct s as [|b s]; [discriminate |]. cbn [String.prefix] in H.
    destruct (ascii_dec a b) as [-> | N]; [| discriminate].
    destruct (IH s H) as (post & ->). exists post. reflexivity.
Qed.

Lemma replace_nothing old new s :
  (forall pre post, s <> pre +:+ old +:+ post) -> str_replace old new s = s.
Proof.
  unfold str_replace. induction s as [|c s IH]; intros Hno; [reflexivity |].
  cbn [replace_from].
  destruct (String.prefix old (String c s)) eqn:E.
  - apply prefix_split in E as (post & E). exfalso. apply (Hno "" post). exact E.
  - f_equal. apply IH. intros pre post ->. apply (Hno (String c pre) post). reflexivity.
Qed.

Lemma prefix_app old post : String.prefix old (old +:+ post) = true.
Proof.
  induction old as [|a old IH]; [now destruct post |].
  change (String a old +:+ post) with (String a (old +:+ post)).
  cbn [String.prefix]. destruct (ascii_dec a a) as [_ | N]; [exact IH | contradiction].
Qed.

Lemma occurs_false old s :
  occurs old s = false -> forall pre post, s <> pre +:+ old +:+ post.
Proof.
  intros H pre. revert s H. induction pre as [|c pre IH]; intros s H post ->.
  - change ("" +:+ old +:+ post) with (old +:+ post) in H.
    assert (Hp : String.prefix old (old +:+ post) = true) by apply prefix_app.
    destruct (old +:+ post); cbn [occurs] in H; rewrite Hp in H; discriminate H.
  - change (String c pre +:+ old +:+ post) with (String c (pre +:+ old +:+ post)) in H.
    cbn [occurs] in H. apply orb_false_elim in H as [_ H].
    exact (IH _ H post eq_refl).
Qed.

(** X17. Only the exact suffix is stripped: for a name that is not the
    publisher account and in which "_austin" does not occur as written
    (in lower case), [parse_editor_name] returns the whole name in lower
    case, so an upper-case "_AUSTIN" stays in the address. *)
Theorem parse_editor_name_without_suffix s :
  ascii_only s = true ->
  str_lower s <> "atd_publisher" ->
  (forall pre post, s <> pre +:+ "_austin" +:+ post) ->
  parse_editor_name s = str_lower s.
Proof.
  intros _ Hpub Hno. unfold parse_editor_name.
  destruct (String.eqb_spec (str_lower s) "atd_publisher") as [E | _]; [contradiction |].
  now rewrite replace_nothing.
Qed.

Lemma replace_suffix name :
  ~ In "_"%char (list_ascii_of_string name) ->
  str_replace "_austin" "" (name +:+ "_austin") = name.
Proof.
  unfold str_replace. induction name as [|c name IH]; intros Hno; [reflexivity |].
  change (String c name +:+ "_austin") with (String c (name +:+ "_austin")).
  cbn [replace_from String.prefix].
  destruct (ascii_dec "_" c) as [<- | N].
  - exfalso. apply Hno. now left.
  - f_equal. apply IH. intros Hin. apply Hno. now right.
Qed.

Lemma str_lower_length s : String.length (str_lower s) = String.length s.
Proof. induction s as [|c s IH]; [reflexivity |]. cbn. now rewrite IH. Qed.

Lemma str_length_app s t :
  String.length (s +:+ t) = (String.length s + String.length t)%nat.
Proof.
  induction s as [|c s IH]; [reflexivity |].
  change (S (String.length (s +:+ t)) = S (String.length s + String.length t)).
  now rewrite IH.
Qed.

Lemma lower_suffix_not_publisher name :
  String.eqb (str_lower (name +:+ "_austin")) "atd_publisher" = false.
Proof.
  apply String.eqb_neq. rewrite str_lower_app.
  change (str_lower "_austin") with "_austin".
  intros H.
  assert (Hlen : String.length (str_lower name +:+ "_austin") = 13%nat)
    by (rewrite H; reflexivity).
  rewrite str_length_app, str_lower_length in Hlen. cbn [String.length] in Hlen.
  destruct name as [|c1 [|c2 [|c3 [|c4 [|c5 [|c6 [|c7 name]]]]]]];
    cbn [String.length] in Hlen; try lia.
  cbv [str_lower append] in H. injection H as _ _ _ _ _ _ H. discriminate H.
Qed.

(** X18. An AGOL username made of an address without underscore followed
    by "_austin" is resolved to the address in lower case. *)
Theorem parse_editor_name_strips_suffix name :
  ascii_only name = true ->
  ~ In "_"%char (list_ascii_of_string name) ->
  parse_editor_name (name +:+ "_austin") = str_lower name.
Proof.
  intros _ Hno. unfold parse_editor_name.
  rewrite lower_suffix_not_publisher. now rewrite replace_suffix.
Qed.

(** ** Field mapping *)

Section MapFields.

Variable data : gmap string value.
Implicit Types (acc : gmap string value) (items field_map : list (string * string)).

Lemma map_fields_from_spec items acc :
  (forall a k, In (a, k) items -> is_Some (data !! a)) ->
  exists payload,
    map_fields_from acc data items = Ok payload /\
    (forall k, ~ In k (map snd items) -> payload !! k = acc !! k) /\
    (forall items1 a k items2,
        items = items1 ++ (a, k) :: items2 -> ~ In k (map snd items2) ->
        payload !! k = data !! a).
Proof.
  revert acc. induction items as [|[a0 k0] items IH]; intros acc Hall.
  - exists acc. split; [reflexivity | split; [reflexivity |]].
    intros [|? ?] a k items2 E; discriminate E.
  - destruct (Hall a0 k0 (or_introl eq_refl)) as [v Hv].
    destruct (IH (<[k0 := v]> acc)) as (payload & E & P1 & P2).
    { intros a k Hin. apply (Hall a k). now right. }
    exists payload. cbn [map_fields_from]. rewrite (getitem_Some _ _ _ Hv).
    split; [exact E | split].
    + intros k Hk. cbn [map snd] in Hk.
      assert (Hk0 : k0 <> k) by (intros ->; apply Hk; now left).
      assert (Hk' : ~ In k (map snd items)) by (intros Hin; apply Hk; now right).
      rewrite (P1 k Hk'). now apply lookup_insert_ne.
    + intros [|[a1 k1] items1] a k items2 Eq Hk; cbn [app] in Eq; injection Eq as -> -> ->.
      * rewrite P1 by assumption. rewrite lookup_insert_eq. now rewrite Hv.
      * eapply P2; eauto.
Qed.

(** X19. When every AGOL field of the map is in the data, [map_fields]
    succeeds; the payload has a Knack field exactly when the map names it,
    and the value of a Knack field is the value of the AGOL field of the
    last item of the map that names it. *)
Theorem map_fields_payload field_map :
  (forall a k, In (a, k) field_map -> is_Some (data !! a)) ->
  exists payload,
    map_fields data field_map = Ok payload /\
    (forall k, ~ In k (map snd field_map) -> payload !! k = None) /\
    (forall items1 a k items2,
        field_map = items1 ++ (a, k) :: items2 -> ~ In k (map snd items2) ->
        payload !! k = data !! a /\ is_Some (payload !! k)).
Proof.
  intros Hall. destruct (map_fields_from_spec field_map ∅ Hall) as (payload & E & P1 & P2).
  exists payload. split; [exact E | split].
  - intros k Hk. rewrite P1 by assumption. apply lookup_empty.
  - intros items1 a k items2 Eq Hk. rewrite (P2 _ _ _ _ Eq Hk). split; [reflexivity |].
    apply (Hall a k). rewrite Eq. apply in_or_app. right. now left.
Qed.

Lemma map_fields_from_missing items1 a k items2 acc :
  (forall a' k', In (a', k') items1 -> is_Some (data !! a')) ->
  data !! a = None ->
  map_fields_from acc data (items1 ++ (a, k) :: items2) = Raise (KeyError a).
Proof.
  revert acc. induction items1 as [|[a0 k0] items1 IH]; intros acc Hall Hnone.
  - cbn [app map_fields_from]. now rewrite (getitem_None _ _ Hnone).
  - destruct (Hall a0 k0 (or_introl eq_refl)) as [v Hv].
    cbn [app map_fields_from]. rewrite (getitem_Some _ _ _ Hv). cbn [mbind result_bind].
    apply IH; [| assumption]. intros a' k' Hin. apply (Hall a' k'). now right.
Qed.

(** X20. [map_fields] fails on incomplete data: it raises KeyError for the
    first AGOL field of the map, in the order of the map, that the data
    lacks. *)
Theorem map_fields_missing items1 a k items2 :
  (forall a' k', In (a', k') items1 -> is_Some (data !! a')) ->
  data !! a = None ->
  map_fields data (items1 ++ (a, k) :: items2) = Raise (KeyError a).
Proof. intros Hall Hnone. now apply map_fields_from_missing. Qed.

End MapFields.

(** ** The Knack user of the editor *)

Section KnackUser.

Context {Geometry : Type}.
Variable user_index : gmap string value.
Implicit Types (wo : WorkOrder Geometry) (tr : list (event Geometry)).

(** X21. For an editor "<address>_austin" whose address has no underscore,
    the step stores under KNACK_USER_ID the record id that the index gives
    for the address in lower case, and None when the index has no such
    address: an editor unknown to Knack is not an error. No other attribute
    changes. *)
Theorem set_knack_user_id_resolves wo tr name :
  ascii_only name = true ->
  ~ In "_"%char (list_ascii_of_string name) ->
  wo_attributes wo !! "Editor" = Some (VStr (name +:+ "_austin")) ->
  set_knack_user_id user_index (wo, tr) =
    (Ok tt,
     (set_attributes
        (<["KNACK_USER_ID" := default VNone (user_index !! str_lower name)]>
           (wo_attributes wo)) wo,
      tr)).
Proof.
  intros Hascii Hno Hed.
  cbv [set_knack_user_id mbind M_bind get_self getattr lift mret M_ret modify_self
       result_bind fst snd].
  rewrite (getitem_Some _ _ _ Hed).
  unfold parse_editor_name.
  rewrite lower_suffix_not_publisher. now rewrite (replace_suffix name Hno).
Qed.

(** X22. Without a string under Editor the step fails and changes nothing:
    KeyError when the attribute is missing, AttributeError when its value
    is None or a number. *)
Theorem set_knack_user_id_bad_editor wo tr :
  (forall name, wo_attributes wo !! "Editor" <> Some (VStr name)) ->
  set_knack_user_id user_index (wo, tr) =
    (Raise (match wo_attributes wo !! "Editor" with
            | None => KeyError "Editor"
            | Some _ => AttributeError "lower"
            end),
     (wo, tr)).
Proof.
  intros Hbad.
  cbv [set_knack_user_id mbind M_bind get_self getattr lift mret M_ret modify_self
       result_bind fst snd getitem].
  destruct (wo_attributes wo !! "Editor") as [[| z | name]|] eqn:E; try reflexivity.
  exfalso. exact (Hbad name eq_refl).
Qed.

End KnackUser.

(** ** Writing the work order back to AGOL *)

Section UpdateAgol.

Context {Geometry : Type}.
Variable edit_features : gmap string value -> Geometry -> json.
Variable results_repr : json -> string.
Implicit Types (wo : WorkOrder Geometry) (tr : list (event Geometry)).

Let payload wo : gmap string value :=
  filter (fun kv : string * value => fst kv ∈ FIELDS_TO_UPDATE) (wo_attributes wo).
Let response wo : json := edit_features (payload wo) (wo_geometry wo).

(** X23. An empty list of update results is not reported as a failed
    update: the IndexError of reading its first element is none of the
    exceptions the check catches, so it escapes as it is, nothing is
    logged and no ValueError naming the work order is raised. *)
Theorem update_agol_work_order_empty_results wo tr d :
  response wo = JDict d ->
  assoc_lookup d "updateResults" = Some (JList []) ->
  update_agol_work_order edit_features results_repr (wo, tr) =
    (Raise IndexError, (wo, tr ++ [Sync "edit_features work_orders"])).
Proof.
  intros Hr Hd.
  cbv [update_agol_work_order mbind M_bind get_self lift mret M_ret emit result_bind].
  cbn [fst snd].
  fold (payload wo). fold (response wo). rewrite Hr.
  unfold update_succeeded, json_getitem. rewrite Hd. reflexivity.
Qed.

(** X24. Only the first update result decides: when its "success" is
    truthy the step succeeds, whatever the other results say, and the work
    order is unchanged. *)
Theorem update_agol_work_order_success wo tr d first others flag :
  response wo = JDict d ->
  assoc_lookup d "updateResults" = Some (JList (JDict first :: others)) ->
  assoc_lookup first "success" = Some flag ->
  json_truthy flag = true ->
  update_agol_work_order edit_features results_repr (wo, tr) =
    (Ok tt, (wo, tr ++ [Sync "edit_features work_orders"])).
Proof.
  intros Hr Hd Hf Hflag.
  cbv [update_agol_work_order mbind M_bind get_self lift mret M_ret emit result_bind].
  cbn [fst snd].
  fold (payload wo). fold (response wo). rewrite Hr.
  unfold update_succeeded, json_getitem, json_first. rewrite Hd.
  cbn [mbind result_bind]. rewrite Hf, Hflag. reflexivity.
Qed.

(** X25. When the first update result has no "success" or a falsy one,
    the response is logged as an error and the step raises a ValueError
    whose message ends with the work order's KNACK_WORK_ORDER_ID. *)
Theorem update_agol_work_order_failure wo tr d first others id :
  response wo = JDict d ->
  assoc_lookup d "updateResults" = Some (JList (JDict first :: others)) ->
  match assoc_lookup first "success" with
  | Some flag => json_truthy flag = false
  | None => True
  end ->
  wo_attributes wo !! "KNACK_WORK_ORDER_ID" = Some id ->
  update_agol_work_order edit_features results_repr (wo, tr) =
    (Raise (ValueError ("AGOL update failed for work order: " +:+ py_str id)),
     (wo, tr ++ [Sync "edit_features work_orders"; Log Error (results_repr (JDict d))])).
Proof.
  intros Hr Hd Hf Hid.
  cbv [update_agol_work_order mbind M_bind get_self lift mret M_ret emit result_bind].
  cbn [fst snd].
  fold (payload wo). fold (response wo). rewrite Hr.
  unfold update_succeeded, json_getitem, json_first. rewrite Hd.
  cbn [mbind result_bind].
  destruct (assoc_lookup first "success") as [flag|]; rewrite ?Hf; cbv beta iota;
    rewrite (getitem_Some _ _ _ Hid); cbn [fst snd]; now rewrite <- app_assoc.
Qed.

(** X26. Only OBJECTID, KNACK_WORK_ORDER_ID, KNACK_RECORD_ID and
    WORK_ORDER_STATUS are sent: the outcome and the trace of the update are
    the same whatever value any other attribute has. *)
Theorem update_agol_work_order_other_attributes wo tr k v :
  ~ In k FIELDS_TO_UPDATE ->
  let wo' := set_attributes (<[k := v]> (wo_attributes wo)) wo in
  fst (update_agol_work_order edit_features results_repr (wo', tr)) =
    fst (update_agol_work_order edit_features results_repr (wo, tr)) /\
  snd (snd (update_agol_work_order edit_features results_repr (wo', tr))) =
    snd (snd (update_agol_work_order edit_features results_repr (wo, tr))).
Proof.
  intros Hk wo'.
  assert (Hp : filter (fun kv : string * value => fst kv ∈ FIELDS_TO_UPDATE)
                      (wo_attributes wo') = payload wo).
  { unfold payload, wo'. cbn [set_attributes wo_attributes].
    apply map_filter_insert_not'.
    - cbn [fst]. intros Hin. apply Hk. now apply list_elem_of_In.
    - intros y _. cbn [fst]. intros Hin. apply Hk. now apply list_elem_of_In. }
  assert (Hid : wo_attributes wo' !! "KNACK_WORK_ORDER_ID"
                = wo_attributes wo !! "KNACK_WORK_ORDER_ID").
  { unfold wo'. cbn [set_attributes wo_attributes]. apply lookup_insert_ne.
    intros ->. apply Hk. cbn. tauto. }
  cbv [update_agol_work_order mbind M_bind get_self lift mret M_ret emit result_bind
       getitem].
  cbn [fst snd].
  rewrite Hp, Hid. fold (payload wo).
  change (wo_geometry wo') with (wo_geometry wo).
  destruct (update_succeeded (edit_features (payload wo) (wo_geometry wo))) as [[] | e];
    try (split; reflexivity).
  destruct (wo_attributes wo !! "KNACK_WORK_ORDER_ID"); split; reflexivity.
Qed.

End UpdateAgol.

(** * The further properties on the sample data *)

Import MoreSamples.

Lemma find_nearest_feature_member_witness :
  find_nearest_feature line_distance (sign_at 15) [main_1200; main_1250; oak_300]
    = (Some main_1200, float_of_int 5) /\
  In main_1200 [main_1200; main_1250; oak_300] /\
  float_of_int 5 = line_distance (geometry (sign_at 15)) (geometry main_1200) /\
  SFltb (float_of_int 5) (S754_infinity false) = true.
Proof.
  assert (H : find_nearest_feature line_distance (sign_at 15) [main_1200; main_1250; oak_300]
              = (Some main_1200, float_of_int 5)) by reflexivity.
  split; [exact H |].
  exact (find_nearest_feature_member line_distance (sign_at 15) _ _ _ H).
Defined.

Lemma identify_nearest_sign_segments_parallel_witness :
  signs matched_work_order = Some [sign_at 15; sign_at 35; sign_at 22] /\
  street_segments matched_work_order = Some [main_1200; main_1250; oak_300] /\
  exists matched,
    identify_nearest_sign_segments line_distance (matched_work_order, []) =
      (Ok tt, (set_sign_segments matched matched_work_order, [])) /\
    length matched = length [sign_at 15; sign_at 35; sign_at 22] /\
    (forall (i : nat) sign, [sign_at 15; sign_at 35; sign_at 22] !! i = Some sign ->
       matched !! i = Some (fst (find_nearest_feature line_distance sign
                                   [main_1200; main_1250; oak_300]))) /\
    (forall f, In (Some f) matched -> In f [main_1200; main_1250; oak_300]).
Proof.
  assert (H1 : signs matched_work_order = Some [sign_at 15; sign_at 35; sign_at 22])
    by reflexivity.
  assert (H2 : street_segments matched_work_order = Some [main_1200; main_1250; oak_300])
    by reflexivity.
  split; [exact H1 | split; [exact H2 |]].
  exact (identify_nearest_sign_segments_parallel line_distance matched_work_order [] _ _ H1 H2).
Defined.

Lemma identify_nearest_sign_segments_without_signs_witness :
  signs (work_order 1) = None /\
  identify_nearest_sign_segments line_distance (work_order 1, []) =
    (Raise (AttributeError "signs"), (set_sign_segments [] (work_order 1), [])).
Proof.
  assert (H : signs (work_order 1) = None) by reflexivity.
  split; [exact H |].
  exact (identify_nearest_sign_segments_without_signs line_distance (work_order 1) [] H).
Defined.

Lemma block_range_missing_from_witness :
  In unnumbered [main_1200; unnumbered] /\
  attributes unnumbered !! "LEFT_BLOCK_FROM" = None /\
  block_range [main_1200; unnumbered] = Raise (KeyError "LEFT_BLOCK_FROM").
Proof.
  assert (H1 : In unnumbered [main_1200; unnumbered]) by (right; left; reflexivity).
  assert (H2 : attributes unnumbered !! "LEFT_BLOCK_FROM" = None) by reflexivity.
  split; [exact H1 | split; [exact H2 |]].
  exact (block_range_missing_from [main_1200; unnumbered] unnumbered H1 H2).
Defined.

Lemma sample_int_blocks x name f t id :
  - (100 * 2 ^ 47) < f < 100 * 2 ^ 47 ->
  - (100 * 2 ^ 47) < t < 100 * 2 ^ 47 ->
  int_blocks (segment x name f t id).
Proof. intros Hf Ht. exists f, t. repeat split; try reflexivity; apply Hf || apply Ht. Defined.

Lemma block_range_permutation_witness :
  [main_1200; oak_300] <> [] /\
  Forall int_blocks [main_1200; oak_300] /\
  Permutation [main_1200; oak_300] [oak_300; main_1200] /\
  block_range [oak_300; main_1200] = block_range [main_1200; oak_300].
Proof.
  assert (H1 : [main_1200; oak_300] <> []) by discriminate.
  assert (H2 : Forall int_blocks [main_1200; oak_300]).
  { repeat constructor; apply sample_int_blocks; split; reflexivity. }
  assert (H3 : Permutation [main_1200; oak_300] [oak_300; main_1200]) by apply perm_swap.
  split; [exact H1 | split; [exact H2 | split; [exact H3 |]]].
  exact (block_range_permutation _ _ H1 H2 H3).
Defined.

Lemma block_range_extends_witness :
  Forall int_blocks [oak_300; main_1200] /\
  block_range [main_1200] = Ok (1200, 1300) /\
  exists start' stop',
    block_range [oak_300; main_1200] = Ok (start', stop') /\
    start' <= 1200 /\ 1300 <= stop'.
Proof.
  assert (H1 : Forall int_blocks [oak_300; main_1200]).
  { repeat constructor; apply sample_int_blocks; split; reflexivity. }
  assert (H2 : block_range [main_1200] = Ok (1200, 1300)) by (vm_compute; reflexivity).
  split; [exact H1 | split; [exact H2 |]].
  exact (block_range_extends [main_1200] oak_300 1200 1300 H1 H2).
Defined.

Lemma block_range_covers_witness :
  Forall int_blocks [main_1200; oak_300] /\
  In oak_300 [main_1200; oak_300] /\
  attributes oak_300 !! "LEFT_BLOCK_FROM" = Some (VInt 310) /\
  attributes oak_300 !! "LEFT_BLOCK_TO" = Some (VInt 380) /\
  exists start stop,
    block_range [main_1200; oak_300] = Ok (start, stop) /\
    start <= 310 /\ 380 <= stop /\ (310 <= 380 -> start <= stop).
Proof.
  assert (H1 : Forall int_blocks [main_1200; oak_300]).
  { repeat constructor; apply sample_int_blocks; split; reflexivity. }
  assert (H2 : In oak_300 [main_1200; oak_300]) by (right; left; reflexivity).
  assert (H3 : attributes oak_300 !! "LEFT_BLOCK_FROM" = Some (VInt 310)) by reflexivity.
  assert (H4 : attributes oak_300 !! "LEFT_BLOCK_TO" = Some (VInt 380)) by reflexivity.
  repeat (split; [assumption |]).
  exact (block_range_covers [main_1200; oak_300] oak_300 310 380 H1 H2 H3 H4).
Defined.

Lemma construct_location_idempotent_witness :
  let st := snd (construct_location (matched_work_order, [])) in
  construct_location (matched_work_order, []) = (Ok tt, st) /\
  construct_location st = (Ok tt, st).
Proof.
  intros st.
  assert (H : construct_location (matched_work_order, []) = (Ok tt, st))
    by (vm_compute; reflexivity).
  split; [exact H |].
  exact (construct_location_idempotent matched_work_order [] st H).
Defined.

Lemma install_note_ignores_current_speed_witness :
  install_sign !! "INSTRUCTIONS" = Some (VStr "INSTALL") /\
  construct_engineer_note (<["CURRENT_SPEED_LIMIT" := VInt 45]> install_sign) =
  construct_engineer_note install_sign.
Proof.
  assert (H1 : install_sign !! "COMMENTS" = Some (VStr "near school")) by reflexivity.
  assert (H2 : install_sign !! "CURRENT_SPEED_LIMIT" = Some (VInt 30)) by reflexivity.
  assert (H3 : install_sign !! "FUTURE_SPEED_LIMIT" = Some (VInt 25)) by reflexivity.
  assert (H4 : install_sign !! "CUSTOM_SIGN" = Some VNone) by reflexivity.
  assert (H5 : install_sign !! "SIGN_TYPE" = Some (VStr "24x30")) by reflexivity.
  assert (H6 : install_sign !! "INSTRUCTIONS" = Some (VStr "INSTALL")) by reflexivity.
  split; [exact H6 |].
  exact (install_note_ignores_current_speed install_sign _ _ _ _ _ H1 H2 H3 H4 H5
           (VStr "INSTALL") (VInt 45) H6 (or_intror eq_refl)).
Defined.

Lemma remove_note_ignores_install_fields_witness :
  remove_sign !! "INSTRUCTIONS" = Some (VStr "REMOVE") /\
  construct_engineer_note
    (<["FUTURE_SPEED_LIMIT" := VNone]>
       (<["CUSTOM_SIGN" := VInt 7]> (<["SIGN_TYPE" := VNone]> remove_sign))) =
  construct_engineer_note remove_sign.
Proof.
  assert (H1 : remove_sign !! "COMMENTS" = Some (VStr "")) by reflexivity.
  assert (H2 : remove_sign !! "CURRENT_SPEED_LIMIT" = Some (VInt 30)) by reflexivity.
  assert (H3 : remove_sign !! "FUTURE_SPEED_LIMIT" = Some (VInt 25)) by reflexivity.
  assert (H4 : remove_sign !! "CUSTOM_SIGN" = Some (VStr "SCHOOL ZONE")) by reflexivity.
  assert (H5 : remove_sign !! "SIGN_TYPE" = Some (VStr "24x30")) by reflexivity.
  assert (H6 : remove_sign !! "INSTRUCTIONS" = Some (VStr "REMOVE")) by reflexivity.
  split; [exact H6 |].
  exact (remove_note_ignores_install_fields remove_sign _ _ _ _ _ H1 H2 H3 H4 H5
           VNone (VInt 7) VNone H6).
Defined.

Lemma main_loop_without_any_signs_witness :
  Forall (fun wo => signs_layer (layers wo) (wo_geometry wo) = [] /\
                    is_Some (wo_attributes wo !! "OBJECTID"))
         [work_order 3; work_order 4] /\
  main_loop line_distance all_valid show_geometry same_point one_request
            [work_order 3; work_order 4] [] =
    (Ok tt, [] ++ concat (map skipped_trace [work_order 3; work_order 4])).
Proof.
  assert (H : Forall (fun wo => signs_layer (layers wo) (wo_geometry wo) = [] /\
                                is_Some (wo_attributes wo !! "OBJECTID"))
                     [work_order 3; work_order 4]).
  { repeat constructor; eexists; reflexivity. }
  split; [exact H |].
  exact (main_loop_without_any_signs line_distance all_valid show_geometry same_point
           one_request [work_order 3; work_order 4] [] H).
Defined.

Lemma identify_eng_area_first_area_witness :
  all_valid (same_point (wo_geometry border_work_order)) = true /\
  eng_areas_layer (layers border_work_order) (same_point (wo_geometry border_work_order))
    = engineer_area :: [south_area] /\
  attributes engineer_area !! "ATD_ENGINEER_AREAS" = Some (VStr "CENTRAL") /\
  identify_eng_area all_valid show_geometry same_point (border_work_order, []) =
    (Ok tt,
     (set_attributes (<["WORK_AREA" := VStr "CENTRAL"]> (wo_attributes border_work_order))
        border_work_order,
      [] ++ [Query EngAreasLayer (same_point (wo_geometry border_work_order))])).
Proof.
  assert (H1 : all_valid (same_point (wo_geometry border_work_order)) = true) by reflexivity.
  assert (H2 : eng_areas_layer (layers border_work_order)
                 (same_point (wo_geometry border_work_order))
               = engineer_area :: [south_area]) by reflexivity.
  assert (H3 : attributes engineer_area !! "ATD_ENGINEER_AREAS" = Some (VStr "CENTRAL"))
    by reflexivity.
  repeat (split; [assumption |]).
  exact (identify_eng_area_first_area all_valid show_geometry same_point border_work_order []
           engineer_area [south_area] (VStr "CENTRAL") H1 H2 H3).
Defined.

Lemma identify_eng_area_invalid_centroid_witness :
  none_valid (same_point (wo_geometry (work_order 1))) = false /\
  identify_eng_area none_valid show_geometry same_point (work_order 1, []) =
    (Raise (ValueError ("Invalid feature geometry: "
                        +:+ show_geometry (same_point (wo_geometry (work_order 1))))),
     (work_order 1, [])).
Proof.
  assert (H : none_valid (same_point (wo_geometry (work_order 1))) = false) by reflexivity.
  split; [exact H |].
  exact (identify_eng_area_invalid_centroid none_valid show_geometry same_point
           (work_order 1) [] H).
Defined.

Lemma parse_editor_name_lower_witness :
  ascii_only "Jane.Doe@austintexas.gov_austin" = true /\
  str_lower (parse_editor_name "Jane.Doe@austintexas.gov_austin") =
  parse_editor_name "Jane.Doe@austintexas.gov_austin".
Proof.
  assert (H : ascii_only "Jane.Doe@austintexas.gov_austin" = true) by reflexivity.
  split; [exact H |].
  exact (parse_editor_name_lower "Jane.Doe@austintexas.gov_austin" H).
Defined.

Lemma parse_editor_name_without_suffix_witness :
  ascii_only "Jane.Doe@austintexas.gov_AUSTIN" = true /\
  parse_editor_name "Jane.Doe@austintexas.gov_AUSTIN" = "jane.doe@austintexas.gov_austin".
Proof.
  assert (H1 : ascii_only "Jane.Doe@austintexas.gov_AUSTIN" = true) by reflexivity.
  assert (H2 : str_lower "Jane.Doe@austintexas.gov_AUSTIN" <> "atd_publisher")
    by discriminate.
  assert (H3 : forall pre post,
             "Jane.Doe@austintexas.gov_AUSTIN" <> pre +:+ "_austin" +:+ post)
    by (apply occurs_false; reflexivity).
  split; [exact H1 |].
  exact (parse_editor_name_without_suffix "Jane.Doe@austintexas.gov_AUSTIN" H1 H2 H3).
Defined.

Lemma no_underscore_jane : ~ In "_"%char (list_ascii_of_string "Jane.Doe@austintexas.gov").
Proof.
  intros H. cbn in H.
  repeat (destruct H as [H | H]; [discriminate H |]). exact H.
Defined.

Lemma parse_editor_name_strips_suffix_witness :
  ascii_only "Jane.Doe@austintexas.gov" = true /\
  parse_editor_name ("Jane.Doe@austintexas.gov" +:+ "_austin") = "jane.doe@austintexas.gov".
Proof.
  assert (H1 : ascii_only "Jane.Doe@austintexas.gov" = true) by reflexivity.
  split; [exact H1 |].
  exact (parse_editor_name_strips_suffix "Jane.Doe@austintexas.gov" H1 no_underscore_jane).
Defined.

Lemma map_fields_payload_witness :
  (forall a k, In (a, k) work_orders_map -> is_Some (wo_attributes (work_order 1) !! a)) /\
  exists payload,
    map_fields (wo_attributes (work_order 1)) work_orders_map = Ok payload /\
    (forall k, ~ In k (map snd work_orders_map) -> payload !! k = None) /\
    (forall items1 a k items2,
        work_orders_map = items1 ++ (a, k) :: items2 -> ~ In k (map snd items2) ->
        payload !! k = wo_attributes (work_order 1) !! a /\ is_Some (payload !! k)).
Proof.
  assert (H : forall a k, In (a, k) work_orders_map ->
                          is_Some (wo_attributes (work_order 1) !! a)).
  { intros a k [E | [E | []]]; injection E as <- <-; eexists; reflexivity. }
  split; [exact H |].
  exact (map_fields_payload (wo_attributes (work_order 1)) work_orders_map H).
Defined.

Lemma map_fields_missing_witness :
  (forall a k, In (a, k) work_orders_map -> is_Some (wo_attributes (work_order 1) !! a)) /\
  wo_attributes (work_order 1) !! "WORK_AREA" = None /\
  map_fields (wo_attributes (work_order 1))
    (work_orders_map ++ ("WORK_AREA", "field_3202") :: [("OBJECTID", "field_3203")])
    = Raise (KeyError "WORK_AREA").
Proof.
  assert (H1 : forall a k, In (a, k) work_orders_map ->
                           is_Some (wo_attributes (work_order 1) !! a)).
  { intros a k [E | [E | []]]; injection E as <- <-; eexists; reflexivity. }
  assert (H2 : wo_attributes (work_order 1) !! "WORK_AREA" = None) by reflexivity.
  split; [exact H1 | split; [exact H2 |]].
  exact (map_fields_missing (wo_attributes (work_order 1)) work_orders_map
           "WORK_AREA" "field_3202" [("OBJECTID", "field_3203")] H1 H2).
Defined.

Lemma set_knack_user_id_resolves_witness :
  ascii_only "Jane.Doe@austintexas.gov" = true /\
  wo_attributes (work_order 1) !! "Editor"
    = Some (VStr ("Jane.Doe@austintexas.gov" +:+ "_austin")) /\
  set_knack_user_id accounts (work_order 1, []) =
    (Ok tt,
     (set_attributes
        (<["KNACK_USER_ID" :=
             default VNone (accounts !! str_lower "Jane.Doe@austintexas.gov")]>
           (wo_attributes (work_order 1))) (work_order 1),
      [])).
Proof.
  assert (H1 : ascii_only "Jane.Doe@austintexas.gov" = true) by reflexivity.
  assert (H2 : wo_attributes (work_order 1) !! "Editor"
               = Some (VStr ("Jane.Doe@austintexas.gov" +:+ "_austin"))) by reflexivity.
  split; [exact H1 | split; [exact H2 |]].
  exact (set_knack_user_id_resolves accounts (work_order 1) []
           "Jane.Doe@austintexas.gov" H1 no_underscore_jane H2).
Defined.

Lemma set_knack_user_id_bad_editor_witness :
  (forall name, wo_attributes anonymous_work_order !! "Editor" <> Some (VStr name)) /\
  set_knack_user_id accounts (anonymous_work_order, []) =
    (Raise (match wo_attributes anonymous_work_order !! "Editor" with
            | None => KeyError "Editor"
            | Some _ => AttributeError "lower"
            end),
     (anonymous_work_order, [])).
Proof.
  assert (H : forall name,
             wo_attributes anonymous_work_order !! "Editor" <> Some (VStr name)).
  { intros name E. vm_compute in E. discriminate E. }
  split; [exact H |].
  exact (set_knack_user_id_bad_editor accounts anonymous_work_order [] H).
Defined.

Lemma update_agol_work_order_empty_results_witness :
  update_agol_work_order nothing_updated show_json (created_work_order, []) =
    (Raise IndexError, (created_work_order, [] ++ [Sync "edit_features work_orders"])).
Proof.
  exact (update_agol_work_order_empty_results nothing_updated show_json created_work_order []
           [("addResults", JList []); ("updateResults", JList [])] eq_refl eq_refl).
Defined.

Lemma update_agol_work_order_success_witness :
  json_truthy (JInt 1) = true /\
  update_agol_work_order (updated (JInt 1)) show_json (created_work_order, []) =
    (Ok tt, (created_work_order, [] ++ [Sync "edit_features work_orders"])).
Proof.
  assert (H : json_truthy (JInt 1) = true) by reflexivity.
  split; [exact H |].
  exact (update_agol_work_order_success (updated (JInt 1)) show_json created_work_order []
           _ [("objectId", JInt 1); ("success", JInt 1)]
           [JDict [("objectId", JInt 2); ("success", JBool false)]] (JInt 1)
           eq_refl eq_refl eq_refl H).
Defined.

Lemma update_agol_work_order_failure_witness :
  wo_attributes created_work_order !! "KNACK_WORK_ORDER_ID" = Some (VStr "WO-77") /\
  update_agol_work_order (updated (JBool false)) show_json (created_work_order, []) =
    (Raise (ValueError ("AGOL update failed for work order: " +:+ py_str (VStr "WO-77"))),
     (created_work_order,
      [] ++ [Sync "edit_features work_orders";
             Log Error (show_json (updated (JBool false) ∅ 1))])).
Proof.
  assert (H1 : json_truthy (JBool false) = false) by reflexivity.
  assert (H2 : wo_attributes created_work_order !! "KNACK_WORK_ORDER_ID"
               = Some (VStr "WO-77")) by reflexivity.
  split; [exact H2 |].
  exact (update_agol_work_order_failure (updated (JBool false)) show_json
           created_work_order [] _ [("objectId", JInt 1); ("success", JBool false)]
           [JDict [("objectId", JInt 2); ("success", JBool false)]] (VStr "WO-77")
           eq_refl eq_refl H1 H2).
Defined.

Lemma editor_is_not_updated : ~ In "Editor" FIELDS_TO_UPDATE.
Proof.
  intros H. cbn in H.
  repeat (destruct H as [H | H]; [discriminate H |]). exact H.
Defined.

Lemma update_agol_work_order_other_attributes_witness :
  let wo' := set_attributes (<["Editor" := VNone]> (wo_attributes created_work_order))
               created_work_order in
  fst (update_agol_work_order (updated (JBool true)) show_json (wo', [])) =
    fst (update_agol_work_order (updated (JBool true)) show_json (created_work_order, [])) /\
  snd (snd (update_agol_work_order (updated (JBool true)) show_json (wo', []))) =
    snd (snd (update_agol_work_order (updated (JBool true)) show_json
                (created_work_order, []))).
Proof.
  exact (update_agol_work_order_other_attributes (updated (JBool true)) show_json
           created_work_order [] "Editor" VNone editor_is_not_updated).
Defined.
